(** * jskit-learn: resampling (cross_validation.js) and transaction
      encoding (calc.js)

    A shallow embedding of [train_test_split], [cross_validation_split],
    [cross_validate_score], [getTransactions] and [assocationRuleLearning],
    with the properties of the specification stated over it.

    Conventions of the embedding.
    - JavaScript numbers are modelled by exact rationals ([Q]) or, where the
      source only ever holds integers, by [Z]; rounding of doubles is not
      modelled.  The quotients and products that occur ([dataset.length /
      folds], [0.8 * dataset.length], [size / 2]) involve integers below
      2^32, for which the double result and the exact rational have the same
      integer part and the same decimal exponent.
    - A JavaScript array is a [list]; reading past its end yields the
      distinguished value [undefined] of the element type.
    - Code that can throw, or call a library routine that may not return,
      produces an [outcome]. *)

From Stdlib Require Import String Ascii.
From Stdlib Require Import ZArith QArith Qabs Qround Lqa List Lia Bool.
From Stdlib Require Import Permutation Sorted Arith.
Import ListNotations.
Open Scope Z_scope.

(** ** JavaScript numbers *)

Module JSNumber.

Definition Qlt_bool (x y : Q) : bool := negb (Qle_bool y x).

(** Leading significant decimal digit of a positive rational [n / d]:
    the digit that starts the exponent form [d.ddde±N]. *)
Fixpoint first_digit_up (fuel : nat) (n d : Z) : Z :=
  if d <=? n then n / d
  else match fuel with
       | O => 0
       | S f => first_digit_up f (10 * n) d
       end.

Fixpoint first_digit_down (fuel : nat) (n d : Z) : Z :=
  if n <? 10 * d then n / d
  else match fuel with
       | O => 0
       | S f => first_digit_down f n (10 * d)
       end.

Definition first_digit (x : Q) : Z :=
  let n := Qnum x in
  let d := Zpos (Qden x) in
  if n <? d then first_digit_up (Z.to_nat (Z.log2_up d)) n d
  else first_digit_down (Z.to_nat (Z.log2_up n)) n d.

(** [parseInt(x, 10)] applied to a finite number [x].  [parseInt] first
    converts its argument to a string.  Number-to-string conversion uses
    plain decimal notation when [1e-6 <= |x| < 1e21], in which case the
    digits before the decimal point are read (truncation towards zero);
    otherwise it uses exponent notation [d.ddde±N], of which [parseInt]
    reads the sign and the single leading digit. *)
Definition parseInt10 (x : Q) : Z :=
  let a := Qabs x in
  if Qeq_bool x 0 then 0
  else if Qle_bool (1 # 1000000) a && Qlt_bool a (inject_Z (10 ^ 21))
       then Z.quot (Qnum x) (Zpos (Qden x))
       else Z.sgn (Qnum x) * first_digit a.

(** [x || d] on an optional number: [undefined] and [0] are falsy. *)
Definition or_elseZ (x : option Z) (d : Z) : Z :=
  match x with
  | Some v => if v =? 0 then d else v
  | None => d
  end.

Definition or_elseQ (x : option Q) (d : Q) : Q :=
  match x with
  | Some v => if Qeq_bool v 0 then d else v
  | None => d
  end.

Definition truthyQ (x : option Q) : bool :=
  match x with
  | Some v => negb (Qeq_bool v 0)
  | None => false
  end.

(** 32-bit integer conversions and operators. *)
Definition to_uint32 (z : Z) : Z := z mod 2 ^ 32.
Definition to_int32 (z : Z) : Z := (z + 2 ^ 31) mod 2 ^ 32 - 2 ^ 31.
Definition js_and (a b : Z) : Z := to_int32 (Z.land (to_int32 a) (to_int32 b)).
Definition js_or (a b : Z) : Z := to_int32 (Z.lor (to_int32 a) (to_int32 b)).
Definition js_xor (a b : Z) : Z := to_int32 (Z.lxor (to_int32 a) (to_int32 b)).
Definition js_ushr (a n : Z) : Z := Z.shiftr (to_uint32 a) n.
Definition js_shl (a n : Z) : Z := to_int32 (Z.shiftl (to_int32 a) n).
Definition imul (a b : Z) : Z := to_int32 (to_int32 a * to_int32 b).

End JSNumber.
Import JSNumber.

(** ** JavaScript values *)

Module JSValue.

(** The values that occur as rows, cells and map entries.  Numbers that
    occur as values are integers; two values are the same key of a [Map]
    exactly when they are equal. *)
Inductive jsval : Type :=
| JUndefined
| JNull
| JBool (b : bool)
| JNum (z : Z)
| JStr (s : string).

Definition jsval_eqb (a b : jsval) : bool :=
  match a, b with
  | JUndefined, JUndefined => true
  | JNull, JNull => true
  | JBool x, JBool y => Bool.eqb x y
  | JNum x, JNum y => x =? y
  | JStr x, JStr y => String.eqb x y
  | _, _ => false
  end.

Definition truthy (v : jsval) : bool :=
  match v with
  | JUndefined | JNull => false
  | JBool b => b
  | JNum z => negb (z =? 0)
  | JStr s => negb (String.eqb s "")
  end.

End JSValue.
Import JSValue.

(** ** Outcomes of a call *)

Inductive outcome (A : Type) : Type :=
| Returns (a : A)
| Throws (e : string)
| Diverges.
Arguments Returns {A} a.
Arguments Throws {A} e.
Arguments Diverges {A}.

(** ** The random-js interface

    [mt19937] is a newly created engine ([Random.engines.mt19937()]),
    [seed e s] the engine after [e.seed(s)], and [integer lo hi e] the call
    [Random.integer(lo, hi)(e)]: the drawn integer and the advanced engine,
    or [None] when the call does not return. *)
Class RandomJS : Type := {
  engine : Type;
  mt19937 : engine;
  seed : engine -> Z -> engine;
  integer : Z -> Z -> engine -> option (Z * engine)
}.

(** The contract of [Random.integer]: a constant when the range is empty or
    a single point (the engine is not consulted), otherwise a value within
    the inclusive bounds. *)
Class RandomJS_contract (R : RandomJS) : Prop := {
  integer_const : forall lo hi e, hi <= lo -> integer lo hi e = Some (lo, e);
  integer_range : forall lo hi e, lo < hi ->
    exists i e', integer lo hi e = Some (i, e') /\ lo <= i <= hi
}.

(** ** Arrays *)

Section Arrays.
Context {V : Type}.
Variable undefined : V.

(** [a.splice(index, 1)]: the removed elements and the array left. *)
Definition splice1 (a : list V) (index : Z) : list V * list V :=
  let len := Z.of_nat (length a) in
  let start := if index <? 0 then Z.max (len + index) 0 else Z.min index len in
  let k := Z.to_nat start in
  (firstn 1 (skipn k a), firstn k a ++ skipn (S k) a).

(** [a[0]] *)
Definition first (a : list V) : V := nth 0 a undefined.

End Arrays.

(** lodash [range(end)] on an integer: [0, 1, ..., end-1], or
    [0, -1, ..., end+1] for a negative [end]. *)
Definition range (end_ : Z) : list Z :=
  let step := if 0 <? end_ then 1 else -1 in
  let length := Z.max (end_ / step) 0 in
  map (fun i => Z.of_nat i * step) (seq 0 (Z.to_nat length)).

(** The keys enumerated by [for (let i in a)] on a dense array. *)
Definition for_in_keys {A} (a : list A) : list nat := seq 0 (length a).

(** ** cross_validation.js *)

Section CrossValidation.
Context {R : RandomJS}.

(** The engines created so far; an engine is referred to by its position. *)
Definition world : Type := list engine.
Definition M (A : Type) : Type := world -> outcome (A * world).

Definition ret {A} (a : A) : M A := fun w => Returns (a, w).
Definition bind {A B} (c : M A) (k : A -> M B) : M B :=
  fun w => match c w with
           | Returns (a, w') => k a w'
           | Throws e => Throws e
           | Diverges => Diverges
           end.

Notation "x <- c ;; k" := (bind c (fun x => k))
  (at level 61, c at next level, right associativity).
Notation "' pat <- c ;; k" := (bind c (fun x => match x with pat => k end))
  (at level 61, pat pattern, c at next level, right associativity).

Fixpoint set_nth {A} (k : nat) (x : A) (l : list A) : list A :=
  match l, k with
  | [], _ => []
  | _ :: t, O => x :: t
  | h :: t, S k' => h :: set_nth k' x t
  end.

(** [Random.engines.mt19937().seed(s)] *)
Definition new_seeded_engine (s : Z) : M nat :=
  fun w => Returns (length w, w ++ [seed mt19937 s]).

(** [Random.integer(lo, hi)(engine)] *)
Definition Random_integer (lo hi : Z) (r : nat) : M Z :=
  fun w => match nth_error w r with
           | None => Throws "TypeError: engine is not a function"
           | Some e =>
               match integer lo hi e with
               | None => Diverges
               | Some (i, e') => Returns (i, set_nth r e' w)
               end
           end.

Section Rows.
Context {V : Type}.
Variable undefined : V.

(** The sampling loop shared by both splitters:
<<
  while (out.length < size) {
    const index = Random.integer(0, (dataset_copy.length - 1))(engine);
    out.push(dataset_copy.splice(index, 1)[0]);
  }
>>
    Every pass appends one element to [out]; [fuel] bounds the number
    of passes. *)
Fixpoint draw_while (fuel : nat) (r : nat) (size : Q)
         (out dataset_copy : list V) : M (list V * list V) :=
  if Qlt_bool (inject_Z (Z.of_nat (length out))) size then
    match fuel with
    | O => fun _ => Diverges
    | S fuel' =>
        index <- Random_integer 0 (Z.of_nat (length dataset_copy) - 1) r ;;
        let (removed, rest) := splice1 dataset_copy index in
        draw_while fuel' r size (out ++ [first undefined removed]) rest
    end
  else ret (out, dataset_copy).

Definition passes (size : Q) : nat := Z.to_nat (Qceiling size).

(** *** train_test_split *)

Record split_options : Type := {
  test_size : option Q;
  train_size : option Q;
  random_state : option Z;
  return_array : bool;
  parse_int_train_size : option bool
}.

Inductive split_result : Type :=
| SplitArray (train test : list V)      (* [train, test] *)
| SplitObject (train test : list V).    (* {train, test} *)

Definition train_of (s : split_result) : list V :=
  match s with SplitArray tr _ | SplitObject tr _ => tr end.
Definition test_of (s : split_result) : list V :=
  match s with SplitArray _ te | SplitObject _ te => te end.

Definition train_test_split (dataset : list V) (options : split_options)
  : M split_result :=
  engine <- new_seeded_engine (or_elseZ (random_state options) 0) ;;
  let training_set := [] in
  let parse_int_train_size :=
    match parse_int_train_size options with
    | Some b => b
    | None => true
    end in
  let n := inject_Z (Z.of_nat (length dataset)) in
  let train_size_length :=
    if truthyQ (train_size options)
    then (match train_size options with Some t => t | None => 0 end * n)%Q
    else ((1 - or_elseQ (test_size options) (2 # 10)) * n)%Q in
  let train_size :=
    if parse_int_train_size
    then inject_Z (parseInt10 train_size_length)
    else train_size_length in
  let dataset_copy := [] ++ dataset in
  '(training_set, dataset_copy) <-
     draw_while (passes train_size) engine train_size training_set dataset_copy ;;
  ret (if return_array options
       then SplitArray training_set dataset_copy
       else SplitObject training_set dataset_copy).

(** *** cross_validation_split *)

Record fold_options : Type := {
  folds : option Z;
  fold_random_state : option Z
}.

(** The body of [for (let i in range(folds))]; the pool that is left
    when the loop ends is returned next to the folds. *)
Fixpoint fold_loop (keys : list nat) (r : nat) (foldsize : Z)
         (dataset_split : list (list V)) (dataset_copy : list V)
  : M (list (list V) * list V) :=
  match keys with
  | [] => ret (dataset_split, dataset_copy)
  | _ :: keys' =>
      let fold := [] in
      '(fold, dataset_copy) <-
         draw_while (passes (inject_Z foldsize)) r (inject_Z foldsize)
                    fold dataset_copy ;;
      fold_loop keys' r foldsize (dataset_split ++ [fold]) dataset_copy
  end.

Definition cross_validation_pool (dataset : list V) (options : fold_options)
  : M (list (list V) * list V) :=
  engine <- new_seeded_engine (or_elseZ (fold_random_state options) 0) ;;
  let folds := or_elseZ (folds options) 3 in
  let dataset_split := [] in
  let dataset_copy := [] ++ dataset in
  let foldsize :=
    parseInt10 (inject_Z (Z.of_nat (length dataset))
                / inject_Z (or_elseZ (Some folds) 3))%Q in
  fold_loop (for_in_keys (range folds)) engine foldsize dataset_split dataset_copy.

Definition cross_validation_split (dataset : list V) (options : fold_options)
  : M (list (list V)) :=
  '(dataset_split, _) <- cross_validation_pool dataset options ;;
  ret dataset_split.

End Rows.
End CrossValidation.

Arguments split_options : clear implicits.
Arguments fold_options : clear implicits.

(** *** cross_validate_score

    The collaborators the cross-validator calls into: the [DataSet] class
    and [util.pivotVector] of this library, [Matrix] and [ConfusionMatrix]
    of ml.js, and the classifier handed in by the caller.  Each call either
    returns, throws or does not return.  A classifier is a mutable object:
    [train] and [predict] yield its next state. *)
Class MLCollaborators (V : Type) : Type := {
  DataSetT : Type;
  Columns : Type;
  MatrixT : Type;
  Labels : Type;
  ConfusionMatrixT : Type;
  Accuracy : Type;
  classifierT : Type;
  DataSet_new : option (list V) -> outcome DataSetT;
  columnMatrix : DataSetT -> list (list string) -> outcome Columns;
  pivotVector : Columns -> outcome (list Labels);
  Matrix_new : Columns -> outcome MatrixT;
  train : classifierT -> Columns + MatrixT -> Columns + MatrixT -> outcome classifierT;
  predict : classifierT -> Columns -> outcome (Labels * classifierT);
  fromLabels : option Labels -> Labels -> outcome ConfusionMatrixT;
  getAccuracy : ConfusionMatrixT -> outcome Accuracy
}.

Section CrossValidateScore.
Context {R : RandomJS} {V : Type} {ML : MLCollaborators V}.
Variable undefined : V.

Local Notation "x <- c ;; k" := (bind c (fun x => k))
  (at level 61, c at next level, right associativity).

(** The options object; [None] is an absent key. *)
Record score_options : Type := {
  classifier : option classifierT;
  regression : bool;
  dataset : option (list V);
  testingset : option (list V);
  dependentFeatures : option (list (list string));
  independentFeatures : option (list (list string));
  score_random_state : option Z;
  score_folds : option Z;
  use_train_x_matrix : option bool;
  use_train_y_matrix : option bool
}.

Definition default {A} (d : A) (x : option A) : A :=
  match x with Some a => a | None => d end.

Definition lift {A} (o : outcome A) : M A :=
  fun w => match o with
           | Returns a => Returns (a, w)
           | Throws e => Throws e
           | Diverges => Diverges
           end.

(** The callback of [folds.map]: the fold's score ([None] is [undefined])
    and the classifier after the call. *)
Definition score_fold (config : score_options) (x_test_matrix : Columns)
           (actuals : option Labels) (clf : option classifierT) (fold : list V)
  : M (option Accuracy * option classifierT) :=
  trainingDataSet <- lift (DataSet_new (Some fold)) ;;
  x_train <- lift (columnMatrix trainingDataSet
                     (default [["X"%string]] (dependentFeatures config))) ;;
  y_train <- lift (columnMatrix trainingDataSet
                     (default [["Y"%string]] (independentFeatures config))) ;;
  x_train_matrix <-
    (if default true (use_train_x_matrix config)
     then m <- lift (Matrix_new x_train) ;; ret (inr m)
     else ret (inl x_train)) ;;
  y_train_matrix <-
    (if default false (use_train_y_matrix config)
     then m <- lift (Matrix_new y_train) ;; ret (inr m)
     else ret (inl y_train)) ;;
  if regression config then
    ret (None, clf)
  else
    match clf with
    | None => lift (Throws "TypeError: Cannot read property 'train' of undefined")
    | Some c =>
        c <- lift (train c x_train_matrix y_train_matrix) ;;
        p <- lift (predict c x_test_matrix) ;;
        CM <- lift (fromLabels actuals (fst p)) ;;
        acc <- lift (getAccuracy CM) ;;
        ret (Some acc, Some (snd p))
    end.

Fixpoint map_folds (config : score_options) (x_test_matrix : Columns)
         (actuals : option Labels) (clf : option classifierT)
         (folds : list (list V)) : M (list (option Accuracy)) :=
  match folds with
  | [] => ret []
  | fold :: folds' =>
      r <- score_fold config x_test_matrix actuals clf fold ;;
      rs <- map_folds config x_test_matrix actuals (snd r) folds' ;;
      ret (fst r :: rs)
  end.

Definition cross_validate_score (options : score_options)
  : M (list (option Accuracy)) :=
  let config := options in
  folds <- cross_validation_split undefined (default [] (dataset config))
             {| folds := Some (default 10 (score_folds config));
                fold_random_state := score_random_state config |} ;;
  testingDataSet <- lift (DataSet_new (testingset config)) ;;
  y_test_matrix <- lift (columnMatrix testingDataSet
                           (default [["Y"%string]] (independentFeatures config))) ;;
  x_test_matrix <- lift (columnMatrix testingDataSet
                           (default [["X"%string]] (dependentFeatures config))) ;;
  pivoted <- lift (pivotVector y_test_matrix) ;;
  let actuals := hd_error pivoted in
  map_folds config x_test_matrix actuals (classifier config) folds.

End CrossValidateScore.

Arguments score_options V {ML}.

(** ** random-js: the MT19937 engine and the integer distribution *)

Module MT19937.

(** The engine closure: [data] is the [Int32Array(624)], [index] the next
    word to temper, [uses] the number of values produced. *)
Record state : Type := { data : list Z; index : Z; uses : Z }.

Definition word (d : list Z) (k : nat) : Z := nth k d 0.

(** One step of [refreshData]:
    [tmp = (data[k] & 0x80000000) | (data[k1] & 0x7fffffff);
     data[k] = data[km] ^ (tmp >>> 1) ^ ((tmp & 0x1) ? 0x9908b0df : 0)]. *)
Definition twist (d : list Z) (k k1 km : nat) : list Z :=
  let tmp := js_or (js_and (word d k) 0x80000000) (js_and (word d k1) 0x7fffffff) in
  set_nth k (js_xor (js_xor (word d km) (js_ushr tmp 1))
                    (if js_and tmp 1 =? 0 then 0 else 0x9908b0df)) d.

Definition refreshData (d : list Z) : list Z :=
  let d1 := fold_left (fun d k => twist d k (k + 1) (k + 397)) (seq 0 227) d in
  let d2 := fold_left (fun d k => twist d k (k + 1) (k - 227)) (seq 227 396) d1 in
  twist d2 623 0 396.

Definition temper (value : Z) : Z :=
  let value := js_xor value (js_ushr value 11) in
  let value := js_xor value (js_and (js_shl value 7) 0x9d2c5680) in
  let value := js_xor value (js_and (js_shl value 15) 0xefc60000) in
  js_xor value (js_ushr value 18).

(** [mt19937()]: a zeroed array, nothing produced yet. *)
Definition create : state := {| data := repeat 0 624; index := 0; uses := 0 |}.

Fixpoint seed_words (n : nat) (i previous : Z) : list Z :=
  match n with
  | O => []
  | S n' =>
      let p := to_int32 (imul (js_xor previous (js_ushr previous 30)) 0x6c078965 + i) in
      p :: seed_words n' (i + 1) p
  end.

(** [engine.seed(initial)] overwrites the whole state. *)
Definition seed_with (e : state) (initial : Z) : state :=
  let previous := to_int32 initial in
  {| data := previous :: seed_words 623 1 previous; index := 624; uses := 0 |}.

(** [engine()] *)
Definition next (e : state) : Z * state :=
  let (d, i) := if 624 <=? index e then (refreshData (data e), 0)
                else (data e, index e) in
  let value := word d (Z.to_nat i) in
  (to_int32 (temper value),
   {| data := d; index := to_int32 (i + 1); uses := uses e + 1 |}).

Definition isPowerOfTwoMinusOne (value : Z) : bool :=
  js_and (value + 1) value =? 0.

Definition bitmask (masking : Z) (e : state) : option (Z * state) :=
  let (v, e') := next e in Some (js_and v masking, e').

(** [do { value = engine() >>> 0; } while (value >= maximum);] with at
    most [fuel] passes; [None] when none of them is accepted. *)
Fixpoint rejection_loop (fuel : nat) (maximum extendedRange : Z) (e : state)
  : option (Z * state) :=
  match fuel with
  | O => None
  | S fuel' =>
      let (v, e') := next e in
      let value := js_ushr v 0 in
      if maximum <=? value then rejection_loop fuel' maximum extendedRange e'
      else Some (value mod extendedRange, e')
  end.

Definition rejection_fuel : nat := 1024.

Definition downscaleToLoopCheckedRange (range : Z) (e : state) : option (Z * state) :=
  let extendedRange := range + 1 in
  let maximum := extendedRange * (0x100000000 / extendedRange) in
  rejection_loop rejection_fuel maximum extendedRange e.

Definition downscaleToRange (range : Z) (e : state) : option (Z * state) :=
  if isPowerOfTwoMinusOne range then bitmask range e
  else downscaleToLoopCheckedRange range e.

Definition add (generate : state -> option (Z * state)) (addend : Z) (e : state)
  : option (Z * state) :=
  if addend =? 0 then generate e
  else match generate e with
       | Some (v, e') => Some (v + addend, e')
       | None => None
       end.

(** [Random.integer(min, max)] on integer bounds.  Ranges of 2^32 values
    and more are built from two engine words by code that is not
    modelled; pools are arrays, whose length stays below 2^32. *)
Definition integer_between (min max : Z) (e : state) : option (Z * state) :=
  let range := max - min in
  if range <=? 0 then Some (min, e)
  else if range <? 0xffffffff then add (downscaleToRange range) min e
  else None.

#[export] Instance random_js : RandomJS := {|
  engine := state;
  mt19937 := create;
  seed := seed_with;
  integer := integer_between
|}.

End MT19937.

(** ** calc.js *)

Module Calc.

(** [Map]: entries in insertion order, one per key. *)
Definition jsmap : Type := list (jsval * jsval).

Fixpoint Map_get (m : jsmap) (k : jsval) : jsval :=
  match m with
  | [] => JUndefined
  | (k', v) :: m' => if jsval_eqb k k' then v else Map_get m' k
  end.

Fixpoint Map_set (m : jsmap) (k v : jsval) : jsmap :=
  match m with
  | [] => [(k, v)]
  | (k', v') :: m' =>
      if jsval_eqb k k' then (k', v) :: m' else (k', v') :: Map_set m' k v
  end.

Definition Map_size (m : jsmap) : Z := Z.of_nat (List.length m).

(** [Set]: members in insertion order. *)
Definition jsset : Type := list jsval.

Definition Set_has (s : jsset) (v : jsval) : bool := existsb (jsval_eqb v) s.
Definition Set_add (s : jsset) (v : jsval) : jsset :=
  if Set_has s v then s else s ++ [v].

(** An object: its own enumerable properties in enumeration order. *)
Definition jsobject : Type := list (string * jsval).

Definition Object_values (o : jsobject) : list jsval := map snd o.

(** An options object, by the lookup of its own properties; [None] is
    an absent key. *)
Definition options_bag : Type := string -> option jsval.

Definition no_options : options_bag := fun _ => None.

Definition with_option (key : string) (v : jsval) (o : options_bag) : options_bag :=
  fun k => if String.eqb k key then Some v else o k.

(** [Object.assign({}, defaults, options)]: the keys of [options]
    override those of [defaults]. *)
Definition Object_assign (defaults options : options_bag) : options_bag :=
  fun k => match options k with
           | Some v => Some v
           | None => defaults k
           end.

(** [config.key] *)
Definition get_property (config : options_bag) (key : string) : jsval :=
  match config key with
  | Some v => v
  | None => JUndefined
  end.

(** [index.toString()] for a non-negative integer. *)
Definition digit_char (d : Z) : ascii := ascii_of_nat (48 + Z.to_nat d).

Fixpoint digits (fuel : nat) (z : Z) (acc : string) : string :=
  match fuel with
  | O => acc
  | S fuel' =>
      let acc' := String (digit_char (z mod 10)) acc in
      if z <? 10 then acc' else digits fuel' (z / 10) acc'
  end.

Definition toString (z : Z) : string := digits (S (Z.to_nat (Z.log2 z))) z "".

(** *** getTransactions *)

(** The [values.forEach] callback. *)
Definition assign_token (valuesMap : jsmap) (val : jsval) : jsmap :=
  if negb (truthy (Map_get valuesMap val)) then
    let index := if Map_size valuesMap <? 0 then 0
                 else parseInt10 (inject_Z (Map_size valuesMap) / inject_Z 2)%Q in
    let valuesMap := Map_set valuesMap val (JStr (toString index)) in
    Map_set valuesMap (JStr (toString index)) val
  else valuesMap.

Definition is_defined (v : jsval) : bool :=
  match v with JUndefined => false | _ => true end.

(** The [data.map] callback on one row, threading the set and the map. *)
Definition encode_row (st : jsset * jsmap) (csvRow : jsobject)
  : (jsset * jsmap) * list jsval :=
  let values := fold_left Set_add (Object_values csvRow) (fst st) in
  let valuesMap := fold_left assign_token values (snd st) in
  (values, valuesMap,
   filter is_defined (map (Map_get valuesMap) (Object_values csvRow))).

Fixpoint encode_rows (st : jsset * jsmap) (data : list jsobject)
  : (jsset * jsmap) * list (list jsval) :=
  match data with
  | [] => (st, [])
  | csvRow :: data' =>
      let (st1, t) := encode_row st csvRow in
      let (st2, ts) := encode_rows st1 data' in
      (st2, t :: ts)
  end.

Record encoding : Type := {
  values : jsset;
  valuesMap : jsmap;
  transactions : list (list jsval)
}.

Definition row_length_truthy (csvRow : list jsval) : bool :=
  negb (Nat.eqb (List.length csvRow) 0).

(** An omitted [options] argument behaves as the empty object. *)
Definition getTransactions (data : list jsobject) (options : options_bag) : encoding :=
  let config :=
    Object_assign (with_option "exludeEmptyTranscations" (JBool true) no_options)
                  options in
  let '(values, valuesMap, transactions) := encode_rows ([], []) data in
  {| values := values;
     valuesMap := valuesMap;
     transactions :=
       if truthy (get_property config "exludeEmptyTranscations")
       then filter row_length_truthy transactions
       else transactions |}.

(** *** assocationRuleLearning *)

Record itemset : Type := { items : list jsval; support : Q }.

Record summary_record : Type := {
  items_labels : list jsval;
  s_items : list jsval;
  s_support : Q;
  support_percent : option Q     (* [None]: not finite (division by 0) *)
}.

Inductive promise (A : Type) : Type :=
| Resolved (a : A)
| Rejected (e : string)
| Pending.
Arguments Resolved {A} a.
Arguments Rejected {A} e.
Arguments Pending {A}.

(** node-fpgrowth: [new FPGrowth(support)] and [fpgrowth.exec]. *)
Class FPGrowthLib : Type := {
  FPGrowth : Type;
  FPGrowth_new : Q -> outcome FPGrowth;
  exec : FPGrowth -> list (list jsval) -> promise (list itemset)
}.

Record rule_options : Type := {
  o_support : option Q;
  o_minLength : option Z;
  o_summary : option bool;
  o_valuesMap : option jsmap
}.

Inductive learning : Type :=
| Summary (s : list summary_record)
| Raw (itemsets : list itemset).

(** [Array.prototype.sort(compare)]: a stable sort; [a] stays before [b]
    unless [compare(a, b) > 0]. *)
Section Sort.
Context {A : Type}.
Variable compare : A -> A -> Q.

Fixpoint insert (x : A) (l : list A) : list A :=
  match l with
  | [] => [x]
  | y :: l' => if Qlt_bool 0 (compare y x) then x :: y :: l' else y :: insert x l'
  end.

Definition sort (l : list A) : list A :=
  fold_left (fun acc x => insert x acc) l [].
End Sort.

Definition divide (a : Q) (n : nat) : option Q :=
  match n with
  | O => None
  | S _ => Some (a / inject_Z (Z.of_nat n))%Q
  end.

Definition summarize (transactions : list (list jsval)) (valuesMap : jsmap)
           (itemsets : list itemset) : list summary_record :=
  sort (fun a b => (s_support b - s_support a)%Q)
    (filter (fun itemset => Nat.ltb 1 (List.length (s_items itemset)))
       (map (fun itemset =>
               {| items_labels := map (fun item => Map_get valuesMap item) (items itemset);
                  s_items := items itemset;
                  s_support := support itemset;
                  support_percent :=
                    divide (support itemset) (List.length transactions) |})
            itemsets)).

Definition assocationRuleLearning {F : FPGrowthLib}
           (transactions : list (list jsval)) (options : rule_options)
  : promise learning :=
  let c_support := match o_support options with Some s => s | None => (4 # 10)%Q end in
  let c_minLength := match o_minLength options with Some n => n | None => 2 end in
  let c_summary := match o_summary options with Some b => b | None => true end in
  let c_valuesMap := match o_valuesMap options with Some m => m | None => [] end in
  match FPGrowth_new c_support with
  | Throws e => Rejected e
  | Diverges => Pending
  | Returns fpgrowth =>
      match exec fpgrowth transactions with
      | Rejected e => Rejected e
      | Pending => Pending
      | Resolved results =>
          if c_summary
          then Resolved (Summary (summarize transactions c_valuesMap results))
          else Resolved (Raw results)
      end
  end.

End Calc.

(** ** Instances of the interfaces

    A second engine behind the random-js interface: a linear congruential
    generator with a modulo draw.  It has no rejection loop, so every draw
    returns. *)
Module LCG.

Definition step (e : Z) : Z := (1103515245 * e + 12345) mod 2 ^ 31.

Definition integer_between (lo hi : Z) (e : Z) : option (Z * Z) :=
  if hi <=? lo then Some (lo, e)
  else Some (lo + e mod (hi - lo + 1), step e).

#[export] Instance random_js : RandomJS := {|
  engine := Z;
  mt19937 := 0;
  seed := fun _ s => to_uint32 s;
  integer := integer_between
|}.

End LCG.

(** Collaborators for the cross-validator: a data set is its rows, a column
    matrix the rows again, and the classifier remembers its last training
    input and predicts it back. *)
Module Echo.

Definition count_equal (a b : list jsval) : nat :=
  List.length (filter (fun p => jsval_eqb (fst p) (snd p)) (combine a b)).

#[export] Instance collaborators : MLCollaborators jsval := {|
  DataSetT := list jsval;
  Columns := list jsval;
  MatrixT := list jsval;
  Labels := list jsval;
  ConfusionMatrixT := list jsval * list jsval;
  Accuracy := Q;
  classifierT := list jsval;
  DataSet_new := fun d => Returns (match d with Some l => l | None => [] end);
  columnMatrix := fun d _ => Returns d;
  pivotVector := fun c => Returns [c];
  Matrix_new := fun c => Returns c;
  train := fun _ x _ => Returns (match x with inl c => c | inr m => m end);
  predict := fun c _ => Returns (c, c);
  fromLabels := fun a e => Returns (match a with Some l => l | None => [] end, e);
  getAccuracy := fun cm =>
    Returns (inject_Z (Z.of_nat (count_equal (fst cm) (snd cm)))
             / inject_Z (Z.of_nat (List.length (fst cm))))%Q
|}.

End Echo.

(** A frequent-pattern miner that resolves with a given list of itemsets. *)
Definition fixed_miner (found : list Calc.itemset) : Calc.FPGrowthLib := {|
  Calc.FPGrowth := Q;
  Calc.FPGrowth_new := fun support => Returns support;
  Calc.exec := fun _ _ => Calc.Resolved found
|}.

(** The rows of the documented example. *)
Definition testArray : list jsval :=
  map JNum [20; 25; 10; 33; 50; 42; 19; 34; 90; 23].

(** What a call returns, without the world it leaves. *)
Definition value_of {A W : Type} (o : outcome (A * W)) : outcome A :=
  match o with
  | Returns (a, _) => Returns a
  | Throws e => Throws e
  | Diverges => Diverges
  end.

Definition raises {A : Type} (o : outcome A) : Prop := exists e, o = Throws e.

(** The positions of a dataset, as rows. *)
Definition positions_of {V : Type} (D : list V) : list (option nat) :=
  map Some (seq 0 (List.length D)).

Definition row_at {V : Type} (undefined : V) (D : list V) (p : option nat) : V :=
  match p with
  | Some i => nth i D undefined
  | None => undefined
  end.

(** The defined entries of a list of optional positions. *)
Definition somes {A : Type} (l : list (option A)) : list A :=
  flat_map (fun p => match p with Some i => [i] | None => [] end) l.

Definition on_result {A B W : Type} (g : A -> B) (o : outcome (A * W)) : outcome (B * W) :=
  match o with
  | Returns (a, w) => Returns (g a, w)
  | Throws e => Throws e
  | Diverges => Diverges
  end.

Definition same_engine {R : RandomJS} (r1 : nat) (w1 : world) (r2 : nat) (w2 : world)
  : Prop :=
  nth_error w1 r1 = nth_error w2 r2.

(** Two runs agree when they end alike, with equal results and with their
    engines in the same state. *)
Definition agree {R : RandomJS} {A : Type} (r1 r2 : nat) (o1 o2 : outcome (A * world))
  : Prop :=
  match o1, o2 with
  | Returns (a1, w1), Returns (a2, w2) => a1 = a2 /\ same_engine r1 w1 r2 w2
  | Throws e1, Throws e2 => e1 = e2
  | Diverges, Diverges => True
  | _, _ => False
  end.

(** The comparator [(a, b) => key(b) - key(a)] and the order it sorts into. *)
Definition descending {A : Type} (key : A -> Q) (a b : A) : Q := (key b - key a)%Q.

Definition before {A : Type} (key : A -> Q) (a b : A) : Prop := (key b <= key a)%Q.


(** Itemsets as a miner reports them. *)
Definition mined : list Calc.itemset :=
  [ {| Calc.items := [JStr "0"]; Calc.support := 3 |};
    {| Calc.items := [JStr "0"; JStr "1"]; Calc.support := 2 |};
    {| Calc.items := [JStr "1"; JStr "2"]; Calc.support := 3 |};
    {| Calc.items := [JStr "0"; JStr "1"; JStr "2"]; Calc.support := 2 |} ]%string.

(** ** Notions used to state further properties *)

(** [l1] is [l2] with some elements left out, the others in their order. *)
Inductive subsequence {A : Type} : list A -> list A -> Prop :=
| sub_nil : subsequence [] []
| sub_skip (x : A) (l1 l2 : list A) : subsequence l1 l2 -> subsequence l1 (x :: l2)
| sub_keep (x : A) (l1 l2 : list A) : subsequence l1 l2 -> subsequence (x :: l1) (x :: l2).

Definition is_digit (c : ascii) : bool :=
  (48 <=? nat_of_ascii c)%nat && (nat_of_ascii c <=? 57)%nat.

Fixpoint all_digits (s : string) : bool :=
  match s with
  | EmptyString => true
  | String c s' => is_digit c && all_digits s'
  end.

(** A cell that reads like a token: a non-empty string of decimal digits. *)
Definition reads_as_number (v : jsval) : bool :=
  match v with
  | JStr (String c s) => all_digits (String c s)
  | _ => false
  end.

Definition plain (v : jsval) : Prop := reads_as_number v = false.

(** The number a string of digits denotes, continuing from [init]. *)
Fixpoint parse_decimal (s : string) (init : Z) : Z :=
  match s with
  | EmptyString => init
  | String c s' => parse_decimal s' (10 * init + (Z.of_nat (nat_of_ascii c) - 48))
  end.

(** The cells of a dataset, row after row. *)
Definition cells (data : list Calc.jsobject) : list jsval :=
  flat_map Calc.Object_values data.

Definition no_numeric_cells (data : list Calc.jsobject) : bool :=
  forallb (fun c => negb (reads_as_number c)) (cells data).

(** The token of the [k]-th distinct value. *)
Definition token (k : nat) : jsval := JStr (Calc.toString (Z.of_nat k)).

(** The map that sends the [i]-th of [vs] to token [k + i] and back. *)
Fixpoint two_way_from (k : nat) (vs : list jsval) : Calc.jsmap :=
  match vs with
  | [] => []
  | v :: vs' => (v, token k) :: (token k, v) :: two_way_from (S k) vs'
  end.

(** The summary record of an itemset. *)
Definition record_of (transactions : list (list jsval)) (m : Calc.jsmap)
           (i : Calc.itemset) : Calc.summary_record :=
  {| Calc.items_labels := map (fun item => Calc.Map_get m item) (Calc.items i);
     Calc.s_items := Calc.items i;
     Calc.s_support := Calc.support i;
     Calc.support_percent := Calc.divide (Calc.support i) (List.length transactions) |}.

(** Rows of a small purchase table; the second has no cells. *)
Definition purchases : list Calc.jsobject :=
  [ [("Country", JStr "Brazil"); ("Purchased", JStr "No")];
    [];
    [("Country", JStr "Mexico"); ("Purchased", JStr "Yes")];
    [("Country", JStr "Brazil"); ("Purchased", JStr "Yes")] ]%string.

(** Itemsets over the tokens of [purchases]. *)
Definition purchase_itemsets : list Calc.itemset :=
  [ {| Calc.items := [JStr "0"]; Calc.support := 2 |};
    {| Calc.items := [JStr "0"; JStr "3"]; Calc.support := 1 |};
    {| Calc.items := [JStr "2"; JStr "3"]; Calc.support := 1 |} ]%string.


Definition unclassified_config : score_options jsval (ML := Echo.collaborators) := {|
  classifier := None;
  regression := false;
  dataset := Some testArray;
  testingset := Some testArray;
  dependentFeatures := None;
  independentFeatures := None;
  score_random_state := Some 0;
  score_folds := Some 2;
  use_train_x_matrix := None;
  use_train_y_matrix := None
|}.

(** * Properties *)

(** ** Numbers *)

Lemma Qlt_bool_inject_Z (a b : Z) : Qlt_bool (inject_Z a) (inject_Z b) = (a <? b).
Proof.
  unfold Qlt_bool, Qle_bool, inject_Z; simpl.
  rewrite !Z.mul_1_r. destruct (Z.ltb_spec a b); destruct (Z.leb_spec b a); auto; lia.
Qed.

Lemma first_digit_up_bounds fuel : forall n d,
  0 <= n < 10 * d -> 0 <= first_digit_up fuel n d <= 9.
Proof.
  induction fuel as [|f IH]; intros n d H; cbn [first_digit_up];
    destruct (Z.leb_spec d n); try lia;
    try (split; [apply Z.div_pos; lia | apply Z.lt_succ_r, Z.div_lt_upper_bound; lia]).
  apply IH; lia.
Qed.

Lemma first_digit_down_bounds fuel : forall n d,
  0 < d -> 0 <= n -> 0 <= first_digit_down fuel n d <= 9.
Proof.
  induction fuel as [|f IH]; intros n d Hd Hn; cbn [first_digit_down];
    destruct (Z.ltb_spec n (10 * d)); try lia;
    try (split; [apply Z.div_pos; lia | apply Z.lt_succ_r, Z.div_lt_upper_bound; lia]).
  apply IH; lia.
Qed.

Lemma first_digit_bounds (x : Q) : (0 <= Qnum x) -> 0 <= first_digit x <= 9.
Proof.
  intros H. unfold first_digit.
  destruct (Z.ltb_spec (Qnum x) (Z.pos (Qden x))).
  - apply first_digit_up_bounds; lia.
  - apply first_digit_down_bounds; lia.
Qed.

(** [parseInt] of a quotient of two integers in the plain-decimal regime. *)
Lemma parseInt10_quotient (n k : Z) :
  0 <= n < 10 ^ 21 -> 1 <= k -> (n = 0 \/ k <= 1000000 * n) ->
  parseInt10 (inject_Z n / inject_Z k)%Q = n / k.
Proof.
  intros Hn Hk Hreg.
  unfold parseInt10.
  destruct k as [|k|k]; try lia.
  assert (Hq : (inject_Z n / inject_Z (Z.pos k))%Q = (n * 1 # 1 * k)%Q) by reflexivity.
  rewrite Hq.
  destruct (Qeq_bool (n * 1 # 1 * k) 0) eqn:E0.
  - apply Qeq_bool_eq in E0. unfold Qeq in E0; simpl in E0.
    assert (n = 0) by lia. subst. reflexivity.
  - assert (n <> 0).
    { intros ->. simpl in E0. discriminate. }
    assert (Ha : Qabs (n * 1 # 1 * k) = (n * 1 # 1 * k)%Q).
    { unfold Qabs. rewrite Z.abs_eq by lia. reflexivity. }
    rewrite Ha.
    assert (H1 : Qle_bool (1 # 1000000) (n * 1 # 1 * k) = true).
    { unfold Qle_bool; cbn [Qnum Qden]. apply Z.leb_le. lia. }
    assert (H2 : Qlt_bool (n * 1 # 1 * k) (inject_Z (10 ^ 21)) = true).
    { unfold Qlt_bool, Qle_bool. cbn [Qnum Qden inject_Z]. apply negb_true_iff, Z.leb_gt.
      change (10 ^ 21) with 1000000000000000000000 in *. nia. }
    rewrite H1, H2. cbn [andb Qnum Qden].
    rewrite Z.mul_1_r, Pos.mul_1_l. apply Z.quot_div_nonneg; lia.
Qed.

(** The count computed by [train_test_split] without size options never
    exceeds the number of rows. *)
Lemma parseInt10_default_train_size (n : Z) :
  0 <= n ->
  0 <= parseInt10 ((1 - (2 # 10)) * inject_Z n)%Q <= n.
Proof.
  intros Hn.
  assert (Hq : ((1 - (2 # 10)) * inject_Z n)%Q = (8 * n # 10)%Q) by reflexivity.
  rewrite Hq. unfold parseInt10.
  destruct (Qeq_bool (8 * n # 10) 0) eqn:E0; [lia|].
  assert (n <> 0).
  { intros ->. simpl in E0. discriminate. }
  assert (Ha : Qabs (8 * n # 10) = (8 * n # 10)%Q).
  { unfold Qabs. rewrite Z.abs_eq by lia. reflexivity. }
  rewrite Ha.
  destruct (Qle_bool (1 # 1000000) (8 * n # 10) && Qlt_bool (8 * n # 10) (inject_Z (10 ^ 21))) eqn:E.
  - cbn [Qnum Qden]. rewrite Z.quot_div_nonneg by lia.
    split; [apply Z.div_pos; lia | apply Z.div_le_upper_bound; lia].
  - apply andb_false_iff in E. destruct E as [E|E].
    + unfold Qle_bool in E; cbn [Qnum Qden] in E. apply Z.leb_gt in E. lia.
    + unfold Qlt_bool, Qle_bool in E. cbn [Qnum Qden inject_Z] in E.
      apply negb_false_iff, Z.leb_le in E.
      change (10 ^ 21) with 1000000000000000000000 in E.
      pose proof (first_digit_bounds (8 * n # 10) ltac:(cbn [Qnum]; lia)) as Hd.
      cbn [Qnum]. rewrite Z.sgn_pos by lia. lia.
Qed.

(** ** Removing one element *)

Section SpliceFacts.
Context {V : Type}.
Variable undefined : V.

Lemma remove_at_perm (k : nat) : forall a : list V,
  Permutation (firstn 1 (skipn k a) ++ firstn k a ++ skipn (S k) a) a.
Proof.
  induction k as [|k IH]; intros [|x a]; simpl; auto.
  specialize (IH a). simpl in IH.
  destruct (skipn k a) as [|y s] eqn:E; simpl in *.
  - constructor. exact IH.
  - rewrite perm_swap. constructor. exact IH.
Qed.

Lemma remove_at_inside (k : nat) : forall a : list V,
  (k < length a)%nat -> exists x, firstn 1 (skipn k a) = [x].
Proof.
  induction k as [|k IH]; intros [|x a] H; simpl in *; try lia.
  - now exists x.
  - apply IH. lia.
Qed.

Lemma splice1_perm (a : list V) (index : Z) :
  Permutation (fst (splice1 a index) ++ snd (splice1 a index)) a.
Proof. unfold splice1; simpl. apply remove_at_perm. Qed.

Lemma splice1_removed (a : list V) (index : Z) :
  fst (splice1 a index) = [] \/ exists x, fst (splice1 a index) = [x].
Proof.
  unfold splice1; simpl.
  destruct (skipn _ a) as [|x s]; simpl; [left|right; exists x]; reflexivity.
Qed.

Lemma splice1_inside (a : list V) (index : Z) :
  0 <= index < Z.of_nat (length a) ->
  exists x, fst (splice1 a index) = [x].
Proof.
  intros H. unfold splice1; simpl.
  destruct (Z.ltb_spec index 0); [lia|].
  apply remove_at_inside. lia.
Qed.

Lemma first_singleton_perm (removed rest a : list V) :
  (exists x, removed = [x]) -> Permutation (removed ++ rest) a ->
  Permutation (first undefined removed :: rest) a.
Proof. intros [x ->] H. exact H. Qed.

End SpliceFacts.

Lemma splice1_map {U V : Type} (f : U -> V) (a : list U) (index : Z) :
  splice1 (map f a) index =
  (map f (fst (splice1 a index)), map f (snd (splice1 a index))).
Proof.
  unfold splice1. rewrite length_map. cbv zeta. cbn [fst snd].
  now rewrite !skipn_map, !firstn_map, map_app.
Qed.

Lemma first_map {U V : Type} (f : U -> V) (u : U) (v : V) (a : list U) :
  f u = v -> first v (map f a) = f (first u a).
Proof. intros H. unfold first. destruct a; simpl; auto. Qed.

(** ** The engine store *)

Section EngineStore.
Context {R : RandomJS}.

Lemma set_nth_length {A} (k : nat) (x : A) : forall l, length (set_nth k x l) = length l.
Proof.
  induction k as [|k IH]; intros [|y l]; simpl; auto.
Qed.

Lemma nth_error_set_nth {A} (k : nat) (x : A) : forall l,
  (k < length l)%nat -> nth_error (set_nth k x l) k = Some x.
Proof.
  induction k as [|k IH]; intros [|y l] H; simpl in *; try lia; auto.
  apply IH. lia.
Qed.

Lemma nth_error_fresh {A} (l : list A) (x : A) :
  nth_error (l ++ [x]) (length l) = Some x.
Proof. rewrite nth_error_app2, Nat.sub_diag by lia. reflexivity. Qed.

Lemma nth_error_is_Some {A} (l : list A) (k : nat) :
  (k < length l)%nat -> exists x, nth_error l k = Some x.
Proof.
  intros H. destruct (nth_error l k) eqn:E; eauto.
  apply nth_error_None in E. lia.
Qed.

(** A draw from an engine of the store returns, within the pool. *)
Lemma Random_integer_returns {C : RandomJS_contract R} (n : Z) (r : nat) (w : world) :
  (r < length w)%nat ->
  exists i w', Random_integer 0 (n - 1) r w = Returns (i, w')
               /\ length w' = length w
               /\ (1 <= n -> 0 <= i < n).
Proof.
  intros Hr. unfold Random_integer.
  destruct (nth_error_is_Some w r Hr) as [e ->].
  destruct (Z.le_gt_cases (n - 1) 0) as [Hn|Hn].
  - rewrite (integer_const 0 (n - 1) e Hn).
    exists 0, (set_nth r e w). rewrite set_nth_length. repeat split; lia.
  - destruct (integer_range 0 (n - 1) e Hn) as (i & e' & -> & Hi).
    exists i, (set_nth r e' w). rewrite set_nth_length. repeat split; lia.
Qed.

End EngineStore.

(** ** The sampling loop *)

Section Sampling.
Context {R : RandomJS} {C : RandomJS_contract R} {V : Type}.
Variable undefined : V.

(** With the passes its size calls for, the loop returns; the output
    reaches the size, and nothing is lost while the pool lasts. *)
Lemma draw_while_returns (fuel : nat) : forall (r : nat) (t : Z) (out pool : list V) (w : world),
  (r < length w)%nat ->
  (Z.to_nat (t - Z.of_nat (length out)) <= fuel)%nat ->
  exists out' pool' w',
    draw_while undefined fuel r (inject_Z t) out pool w = Returns ((out', pool'), w')
    /\ length w' = length w
    /\ length out' = Nat.max (length out) (Z.to_nat t)
    /\ (t - Z.of_nat (length out) <= Z.of_nat (length pool) ->
        Permutation (out' ++ pool') (out ++ pool)).
Proof.
  induction fuel as [|fuel IH]; intros r t out pool w Hr Hfuel;
    cbn [draw_while]; rewrite Qlt_bool_inject_Z;
    destruct (Z.ltb_spec (Z.of_nat (length out)) t) as [Hlt|Hge];
    try lia;
    try (exists out, pool, w; unfold ret; repeat split; auto; lia).
  unfold bind at 1.
  destruct (Random_integer_returns (Z.of_nat (length pool)) r w Hr)
    as (i & w1 & -> & Hw1 & Hi).
  destruct (splice1 pool i) as [removed rest] eqn:Es.
  pose proof (splice1_perm pool i) as Hperm. rewrite Es in Hperm; simpl in Hperm.
  destruct (IH r t (out ++ [first undefined removed]) rest w1) as (out' & pool' & w' & E & Hw' & Hlen & Hp).
  { lia. }
  { rewrite length_app; simpl. lia. }
  exists out', pool', w'. rewrite E. repeat split.
  - lia.
  - rewrite Hlen, length_app; simpl. lia.
  - intros Hroom.
    assert (Hin : exists x, removed = [x]).
    { pose proof (splice1_inside pool i ltac:(lia)) as [x Hx].
      rewrite Es in Hx. now exists x. }
    pose proof (first_singleton_perm undefined _ _ _ Hin Hperm) as Hrest.
    assert (length rest = pred (length pool)) as Hlr.
    { apply Permutation_length in Hrest. simpl in Hrest. lia. }
    rewrite Hp.
    + rewrite <- app_assoc. simpl. apply Permutation_app_head. exact Hrest.
    + rewrite length_app; simpl. lia.
Qed.

End Sampling.

Lemma passes_inject_Z (t : Z) : passes (inject_Z t) = Z.to_nat t.
Proof. unfold passes. now rewrite Qceiling_Z. Qed.

Lemma or_elseZ_nonzero (x : option Z) (d : Z) : d <> 0 -> or_elseZ x d <> 0.
Proof.
  intros Hd. destruct x as [v|]; simpl; auto.
  destruct (Z.eqb_spec v 0); auto.
Qed.

Lemma or_elseZ_again (x : option Z) (d : Z) :
  d <> 0 -> or_elseZ (Some (or_elseZ x d)) d = or_elseZ x d.
Proof.
  intros Hd. pose proof (or_elseZ_nonzero x d Hd) as H.
  unfold or_elseZ at 1. destruct (Z.eqb_spec (or_elseZ x d) 0); congruence.
Qed.

Lemma length_range (k : Z) : length (range k) = Z.to_nat (Z.abs k).
Proof.
  unfold range. rewrite length_map, length_seq.
  destruct (Z.ltb_spec 0 k).
  - rewrite Z.div_1_r. lia.
  - replace (k / -1) with (- k).
    + lia.
    + apply Z.div_unique_exact; lia.
  Qed.


Lemma length_for_in_keys {A} (a : list A) : length (for_in_keys a) = length a.
Proof. apply length_seq. Qed.

Section Folding.
Context {R : RandomJS} {C : RandomJS_contract R} {V : Type}.
Variable undefined : V.

Lemma fold_loop_returns (keys : list nat) :
  forall (r : nat) (fs : Z) (split : list (list V)) (pool : list V) (w : world),
  (r < length w)%nat ->
  exists new pool' w',
    fold_loop undefined keys r fs split pool w = Returns ((split ++ new, pool'), w')
    /\ length w' = length w
    /\ length new = length keys
    /\ Forall (fun fold => length fold = Z.to_nat fs) new
    /\ (Z.of_nat (length keys) * fs <= Z.of_nat (length pool) ->
        Permutation (concat new ++ pool') pool).
Proof.
  induction keys as [|key keys IH]; intros r fs split pool w Hr; cbn [fold_loop].
  - exists [], pool, w. unfold ret. rewrite app_nil_r. repeat split; auto.
  - unfold bind at 1.
    destruct (draw_while_returns undefined (passes (inject_Z fs)) r fs [] pool w Hr)
      as (fold & pool1 & w1 & -> & Hw1 & Hlen & Hperm).
    { rewrite passes_inject_Z. simpl. lia. }
    simpl in Hlen, Hperm.
    assert (Hr1 : (r < length w1)%nat) by (rewrite Hw1; exact Hr).
    destruct (IH r fs (split ++ [fold]) pool1 w1 Hr1)
      as (new & pool' & w' & -> & Hw' & Hnew & Hall & Hp).
    exists (fold :: new), pool', w'. rewrite <- app_assoc.
    cbn [app concat length].
    repeat split; auto; try lia.
    intros Hroom. rewrite Nat2Z.inj_succ in Hroom.
    assert (Hfs : fs - 0 <= Z.of_nat (length pool)) by nia.
    specialize (Hperm Hfs).
    assert (Hl1 : (length fold + length pool1 = length pool)%nat).
    { apply Permutation_length in Hperm. now rewrite length_app in Hperm. }
    rewrite <- app_assoc, Hp, Hperm; auto.
    nia.
Qed.

End Folding.

Section SplitTheorems.
Context {R : RandomJS} {C : RandomJS_contract R} {V : Type}.
Variable undefined : V.

(** C1.  For every dataset [D] and seed [S], [train_test_split(D,
    {random_state: S})] returns a train and a test list whose lengths add
    up to the length of [D] and which together hold exactly the rows of
    [D], each as often as [D] does. *)
Theorem train_test_split_partitions (D : list V) (S : Z) (w : world) :
  exists r w',
    train_test_split undefined D
      {| test_size := None; train_size := None; random_state := Some S;
         return_array := false; parse_int_train_size := None |} w
    = Returns (r, w')
    /\ (length (train_of r) + length (test_of r) = length D)%nat
    /\ Permutation (train_of r ++ test_of r) D.
Proof.
  unfold train_test_split. cbn [train_size test_size random_state return_array
    parse_int_train_size truthyQ or_elseQ].
  unfold bind at 1. unfold new_seeded_engine.
  pose proof (parseInt10_default_train_size (Z.of_nat (length D)) ltac:(lia)) as Ht.
  set (t := parseInt10 ((1 - (2 # 10)) * inject_Z (Z.of_nat (length D)))%Q) in *.
  destruct (draw_while_returns undefined (passes (inject_Z t)) (length w) t [] ([] ++ D)
              (w ++ [seed mt19937 (or_elseZ (Some S) 0)]))
    as (train & test & w' & E & _ & Hlen & Hperm).
  { rewrite length_app; simpl; lia. }
  { rewrite passes_inject_Z; simpl; lia. }
  unfold bind. rewrite E. unfold ret.
  exists (SplitObject train test), w'.
  simpl in Hperm. specialize (Hperm ltac:(lia)).
  repeat split; auto.
  apply Permutation_length in Hperm. now rewrite length_app in Hperm.
Qed.


End SplitTheorems.

(** ** Positions *)

Lemma somes_app {A} (l1 l2 : list (option A)) : somes (l1 ++ l2) = somes l1 ++ somes l2.
Proof. apply flat_map_app. Qed.

Lemma in_somes {A} (l : list (option A)) (i : A) : In i (somes l) <-> In (Some i) l.
Proof.
  unfold somes. rewrite in_flat_map. split.
  - intros ([j|] & Hin & Hj); simpl in Hj; intuition; subst; auto.
  - intros H. exists (Some i). simpl; auto.
Qed.

Lemma somes_perm {A} (l1 l2 : list (option A)) :
  Permutation l1 l2 -> Permutation (somes l1) (somes l2).
Proof. intros H. unfold somes. now apply Permutation_flat_map. Qed.

Lemma somes_positions {V} (D : list V) : somes (positions_of D) = seq 0 (length D).
Proof.
  unfold positions_of. generalize (seq 0 (length D)) as l.
  induction l as [|i l IH]; simpl; congruence.
Qed.

Lemma row_at_positions {V} (undefined : V) (D : list V) :
  map (row_at undefined D) (positions_of D) = D.
Proof.
  unfold positions_of. rewrite map_map. cbn [row_at].
  induction D as [|x D IH]; simpl; auto.
  f_equal. rewrite <- seq_shift, map_map. exact IH.
Qed.

Lemma nodup_somes_concat {A} (L : list (list (option A))) :
  NoDup (somes (concat L)) ->
  forall a b i, In (Some i) (nth a L []) -> In (Some i) (nth b L []) -> a = b.
Proof.
  induction L as [|l L IH]; intros Hnd a b i Ha Hb.
  - destruct a; simpl in Ha; contradiction.
  - simpl in Hnd. rewrite somes_app in Hnd.
    assert (Hrest : forall c, In (Some i) (nth c L []) -> In i (somes (concat L))).
    { intros c Hc. apply in_somes, in_concat. exists (nth c L []). split; auto.
      destruct (Nat.lt_ge_cases c (length L)) as [Hlt|Hge].
      - now apply nth_In.
      - rewrite nth_overflow in Hc by lia. contradiction. }
    pose proof (NoDup_app_remove_l _ _ Hnd) as HndL.
    assert (Hsep : In i (somes l) -> In i (somes (concat L)) -> False).
    { clear - Hnd. intros H1 H2. induction (somes l) as [|x s IHs]; simpl in *; auto.
      inversion Hnd; subst. destruct H1 as [->|H1].
      - apply H3. apply in_or_app. now right.
      - now apply IHs. }
    destruct a as [|a], b as [|b]; simpl in Ha, Hb; auto.
    + exfalso. apply Hsep; [now apply in_somes | eauto].
    + exfalso. apply Hsep; [now apply in_somes | eauto].
    + f_equal. eapply IH; eauto.
Qed.

Section Monad.
Context {R : RandomJS}.

Lemma bind_Returns {A B} (c : M A) (k : A -> M B) (w : world) (x : B * world) :
  bind c k w = Returns x -> exists a w1, c w = Returns (a, w1) /\ k a w1 = Returns x.
Proof.
  unfold bind. destruct (c w) as [[a w1]| |]; try discriminate. eauto.
Qed.

(** Whatever index is drawn, positions move from the pool to the output
    and are neither lost nor repeated. *)
Lemma draw_while_somes {A} (fuel : nat) :
  forall (r : nat) (size : Q) (out pool out' pool' : list (option A)) (w w' : world),
  draw_while None fuel r size out pool w = Returns ((out', pool'), w') ->
  Permutation (somes (out' ++ pool')) (somes (out ++ pool)).
Proof.
  induction fuel as [|fuel IH]; intros r size out pool out' pool' w w';
    cbn [draw_while]; destruct (Qlt_bool _ size);
    try discriminate;
    try (unfold ret; intros [= -> -> ->]; reflexivity).
  intros H. apply bind_Returns in H. destruct H as (i & w1 & _ & H).
  pose proof (splice1_perm pool i) as Hperm.
  pose proof (splice1_removed pool i) as Hrem.
  destruct (splice1 pool i) as [removed rest]; simpl in Hperm, Hrem.
  apply IH in H. rewrite H, <- app_assoc, !somes_app.
  apply Permutation_app_head.
  transitivity (somes (removed ++ rest)); [|now apply somes_perm].
  rewrite somes_app. apply Permutation_app_tail.
  destruct Hrem as [->|[x ->]]; reflexivity.
Qed.

Lemma fold_loop_somes {A} (keys : list nat) :
  forall (r : nat) (fs : Z) (split split' : list (list (option A)))
         (pool pool' : list (option A)) (w w' : world),
  fold_loop None keys r fs split pool w = Returns ((split', pool'), w') ->
  Permutation (somes (concat split' ++ pool')) (somes (concat split ++ pool)).
Proof.
  induction keys as [|key keys IH]; intros r fs split split' pool pool' w w';
    cbn [fold_loop].
  - unfold ret; intros [= -> -> ->]; reflexivity.
  - intros H. apply bind_Returns in H. destruct H as ([fold pool1] & w1 & H1 & H).
    apply IH in H. apply draw_while_somes in H1.
    rewrite H, concat_app. simpl. rewrite app_nil_r, <- app_assoc, somes_app.
    rewrite H1. simpl. now rewrite <- somes_app.
Qed.

(** The draws depend on the number of rows only: renaming the rows
    renames the result. *)
Lemma draw_while_map {U V} (f : U -> V) (u : U) (v : V) (Hf : f u = v) (fuel : nat) :
  forall (r : nat) (size : Q) (out pool : list U) (w : world),
  draw_while v fuel r size (map f out) (map f pool) w
  = on_result (fun p => (map f (fst p), map f (snd p)))
              (draw_while u fuel r size out pool w).
Proof.
  induction fuel as [|fuel IH]; intros r size out pool w;
    cbn [draw_while]; rewrite !length_map;
    destruct (Qlt_bool _ size); try reflexivity.
  unfold bind.
  destruct (Random_integer 0 (Z.of_nat (length pool) - 1) r w) as [[i w1]| |];
    try reflexivity.
  rewrite splice1_map. destruct (splice1 pool i) as [removed rest]; cbn [fst snd].
  rewrite (first_map f u v removed Hf).
  change [f (first u removed)] with (map f [first u removed]).
  rewrite <- map_app. apply IH.
Qed.

Lemma fold_loop_map {U V} (f : U -> V) (u : U) (v : V) (Hf : f u = v) (keys : list nat) :
  forall (r : nat) (fs : Z) (split : list (list U)) (pool : list U) (w : world),
  fold_loop v keys r fs (map (map f) split) (map f pool) w
  = on_result (fun p => (map (map f) (fst p), map f (snd p)))
              (fold_loop u keys r fs split pool w).
Proof.
  induction keys as [|key keys IH]; intros r fs split pool w; cbn [fold_loop].
  - reflexivity.
  - unfold bind.
    change (@nil V) with (map f []).
    rewrite (draw_while_map f u v Hf).
    destruct (draw_while u _ r _ [] pool w) as [[[fold pool1] w1]| |];
      try reflexivity.
    cbn [on_result fst snd].
    change [map f fold] with (map (map f) [fold]).
    rewrite <- map_app. apply IH.
Qed.

Lemma cross_validation_pool_map {U V} (f : U -> V) (u : U) (v : V) (Hf : f u = v)
      (D : list U) (o : fold_options) (w : world) :
  cross_validation_pool v (map f D) o w
  = on_result (fun p => (map (map f) (fst p), map f (snd p)))
              (cross_validation_pool u D o w).
Proof.
  unfold cross_validation_pool, bind, new_seeded_engine.
  rewrite length_map. cbn [app].
  apply (fold_loop_map f u v Hf _ _ _ [] D).
Qed.

End Monad.

Section FoldTheorems.
Context {R : RandomJS} {C : RandomJS_contract R} {V : Type}.
Variable undefined : V.

(** Every configuration yields folds. *)
Lemma cross_validation_pool_returns {U} (u : U) (D : list U) (o : fold_options) (w : world) :
  exists split rest w',
    cross_validation_pool u D o w = Returns ((split, rest), w')
    /\ length split = Z.to_nat (Z.abs (or_elseZ (folds o) 3))
    /\ Forall (fun fold =>
                 length fold =
                 Z.to_nat (parseInt10 (inject_Z (Z.of_nat (length D))
                                       / inject_Z (or_elseZ (folds o) 3))%Q)) split.
Proof.
  unfold cross_validation_pool, bind, new_seeded_engine.
  rewrite or_elseZ_again by lia.
  destruct (fold_loop_returns u (for_in_keys (range (or_elseZ (folds o) 3))) (length w)
              (parseInt10 (inject_Z (Z.of_nat (length D))
                           / inject_Z (or_elseZ (folds o) 3))%Q) [] ([] ++ D)
              (w ++ [seed mt19937 (or_elseZ (fold_random_state o) 0)]))
    as (new & rest & w' & -> & _ & Hnew & Hall & _).
  { rewrite length_app; simpl; lia. }
  rewrite length_for_in_keys, length_range in Hnew.
  exists new, rest, w'. cbn [app]. auto.
Qed.

(** C3.  One call of [cross_validation_split] assigns no position of the
    dataset to two folds.  The folds of [D] are the folds of its positions
    [0 .. n-1], row by row; a position occurs in one fold at most, and only
    positions of [D] occur. *)
Theorem fold_disjointness (D : list V) (o : fold_options) (w : world) :
  exists (assigned : list (list (option nat))) (w' : world),
    cross_validation_split None (positions_of D) o w = Returns (assigned, w')
    /\ cross_validation_split undefined D o w
       = Returns (map (map (row_at undefined D)) assigned, w')
    /\ (forall a b i, In (Some i) (nth a assigned []) ->
                      In (Some i) (nth b assigned []) -> a = b)
    /\ (forall a i, In (Some i) (nth a assigned []) -> (i < length D)%nat).
Proof.
  destruct (cross_validation_pool_returns None (positions_of D) o w)
    as (assigned & rest & w' & E & _).
  pose proof (cross_validation_pool_map (row_at undefined D) None undefined eq_refl
                (positions_of D) o w) as Hmap.
  rewrite row_at_positions, E in Hmap. cbn [on_result fst snd] in Hmap.
  exists assigned, w'. unfold cross_validation_split, bind. rewrite E, Hmap.
  unfold ret. repeat split.
  - unfold cross_validation_pool, bind, new_seeded_engine in E.
    apply fold_loop_somes in E. cbn [app concat] in E.
    rewrite somes_positions, somes_app in E.
    assert (Hnd : NoDup (somes (concat assigned))).
    { eapply NoDup_app_remove_r. eapply Permutation_NoDup.
      - symmetry; exact E.
      - apply seq_NoDup. }
    now apply nodup_somes_concat.
  - unfold cross_validation_pool, bind, new_seeded_engine in E.
    apply fold_loop_somes in E. cbn [app concat] in E.
    rewrite somes_positions, somes_app in E.
    intros a i Hin.
    assert (Hi : In i (seq 0 (length D))).
    { eapply Permutation_in; [exact E|]. apply in_or_app. left.
      apply in_somes, in_concat. exists (nth a assigned []). split; auto.
      destruct (Nat.lt_ge_cases a (length assigned)) as [Hlt|Hge].
      - now apply nth_In.
      - rewrite nth_overflow in Hin by lia. contradiction. }
    apply in_seq in Hi. lia.
Qed.

End FoldTheorems.

Section Agreement.
Context {R : RandomJS}.

Lemma agree_value_of {A} (r1 r2 : nat) (o1 o2 : outcome (A * world)) :
  agree r1 r2 o1 o2 -> value_of o1 = value_of o2.
Proof.
  destruct o1 as [[a1 w1]| |], o2 as [[a2 w2]| |]; simpl; try tauto.
  - intros [-> _]; reflexivity.
  - intros ->; reflexivity.
Qed.

Lemma bind_agree {A B} (r1 r2 : nat) (c1 c2 : M A) (k1 k2 : A -> M B) (w1 w2 : world) :
  agree r1 r2 (c1 w1) (c2 w2) ->
  (forall a v1 v2, same_engine r1 v1 r2 v2 -> agree r1 r2 (k1 a v1) (k2 a v2)) ->
  agree r1 r2 (bind c1 k1 w1) (bind c2 k2 w2).
Proof.
  unfold bind. intros Hc Hk.
  destruct (c1 w1) as [[a1 v1]| |], (c2 w2) as [[a2 v2]| |]; simpl in Hc; try tauto.
  destruct Hc as [-> Hs]. now apply Hk.
Qed.

Lemma Random_integer_agree (lo hi : Z) (r1 r2 : nat) (w1 w2 : world) :
  same_engine r1 w1 r2 w2 ->
  agree r1 r2 (Random_integer lo hi r1 w1) (Random_integer lo hi r2 w2).
Proof.
  unfold same_engine, Random_integer. intros H.
  destruct (nth_error w1 r1) as [e|] eqn:E1; rewrite <- H; simpl; auto.
  destruct (integer lo hi e) as [[i e']|]; simpl; auto.
  split; auto. unfold same_engine.
  rewrite !nth_error_set_nth; auto.
  - apply nth_error_Some. congruence.
  - apply nth_error_Some. congruence.
Qed.

Lemma draw_while_agree {V} (undefined : V) (fuel : nat) :
  forall (r1 r2 : nat) (size : Q) (out pool : list V) (w1 w2 : world),
  same_engine r1 w1 r2 w2 ->
  agree r1 r2 (draw_while undefined fuel r1 size out pool w1)
              (draw_while undefined fuel r2 size out pool w2).
Proof.
  induction fuel as [|fuel IH]; intros r1 r2 size out pool w1 w2 Hs;
    cbn [draw_while]; destruct (Qlt_bool _ size); simpl; auto.
  apply bind_agree.
  - now apply Random_integer_agree.
  - intros i v1 v2 Hv. destruct (splice1 pool i). now apply IH.
Qed.

Lemma fold_loop_agree {V} (undefined : V) (keys : list nat) :
  forall (r1 r2 : nat) (fs : Z) (split : list (list V)) (pool : list V) (w1 w2 : world),
  same_engine r1 w1 r2 w2 ->
  agree r1 r2 (fold_loop undefined keys r1 fs split pool w1)
              (fold_loop undefined keys r2 fs split pool w2).
Proof.
  induction keys as [|key keys IH]; intros r1 r2 fs split pool w1 w2 Hs;
    cbn [fold_loop]; simpl; auto.
  apply bind_agree.
  - now apply draw_while_agree.
  - intros [fold pool1] v1 v2 Hv. now apply IH.
Qed.

Lemma fresh_engines_agree (e : engine) (w1 w2 : world) :
  same_engine (length w1) (w1 ++ [e]) (length w2) (w2 ++ [e]).
Proof. unfold same_engine. now rewrite !nth_error_fresh. Qed.

(** The result of a split does not depend on the engines that exist
    when it is called. *)
Lemma train_test_split_any_world {V} (undefined : V) (D : list V)
      (o : split_options) (w1 w2 : world) :
  value_of (train_test_split undefined D o w1)
  = value_of (train_test_split undefined D o w2).
Proof.
  apply (agree_value_of (length w1) (length w2)).
  unfold train_test_split.
  unfold bind at 1 3. unfold new_seeded_engine.
  apply bind_agree.
  - apply draw_while_agree, fresh_engines_agree.
  - intros [train test] v1 v2 Hv. simpl. auto.
Qed.

Lemma cross_validation_split_any_world {V} (undefined : V) (D : list V)
      (o : fold_options) (w1 w2 : world) :
  value_of (cross_validation_split undefined D o w1)
  = value_of (cross_validation_split undefined D o w2).
Proof.
  apply (agree_value_of (length w1) (length w2)).
  unfold cross_validation_split. apply bind_agree.
  - unfold cross_validation_pool, bind, new_seeded_engine.
    apply fold_loop_agree, fresh_engines_agree.
  - intros [split rest] v1 v2 Hv. simpl. auto.
Qed.

(** C2.  Calling [train_test_split] twice, or [cross_validation_split]
    twice, with the same dataset and the same options gives the same
    output, in the same order: the output does not depend on the engines
    that exist when the call is made, so a second call, made after the
    first has created and advanced its engine, repeats the first. *)
Theorem split_determinism {V} (undefined : V) (D : list V)
        (o : split_options) (o' : fold_options) (w1 w2 : world) :
  value_of (train_test_split undefined D o w1)
  = value_of (train_test_split undefined D o w2)
  /\ value_of (cross_validation_split undefined D o' w1)
     = value_of (cross_validation_split undefined D o' w2).
Proof.
  split.
  - apply train_test_split_any_world.
  - apply cross_validation_split_any_world.
Qed.

End Agreement.

(** C5.  The documented example: on [testArray] with seed 0, two folds are
    [[50,20,34,33,10]] and [[23,90,42,19,25]], and a test size of 0.2 splits
    into train [[50,20,34,33,10,23,90,42]] and test [[25,19]]. *)
Theorem documented_example (w : world (R := MT19937.random_js)) :
  value_of (cross_validation_split JUndefined testArray
              {| folds := Some 2; fold_random_state := Some 0 |} w)
  = Returns [map JNum [50; 20; 34; 33; 10]; map JNum [23; 90; 42; 19; 25]]
  /\ value_of (train_test_split JUndefined testArray
                 {| test_size := Some (2 # 10)%Q; train_size := None;
                    random_state := Some 0; return_array := false;
                    parse_int_train_size := None |} w)
     = Returns (SplitObject (map JNum [50; 20; 34; 33; 10; 23; 90; 42])
                            (map JNum [25; 19])).
Proof.
  split.
  - rewrite (cross_validation_split_any_world _ _ _ w []). vm_compute. reflexivity.
  - rewrite (train_test_split_any_world _ _ _ w []). vm_compute. reflexivity.
Qed.

Lemma lcg_contract : RandomJS_contract LCG.random_js.
Proof.
  split; intros lo hi e H; simpl; unfold LCG.integer_between.
  - destruct (Z.leb_spec hi lo); [reflexivity | lia].
  - destruct (Z.leb_spec hi lo); [lia|].
    eexists _, _. split; [reflexivity|].
    pose proof (Z.mod_pos_bound e (hi - lo + 1) ltac:(lia)). lia.
Qed.

Lemma train_test_split_partitions_witness :
  exists r w',
    train_test_split (R := LCG.random_js) JUndefined testArray
      {| test_size := None; train_size := None; random_state := Some 7;
         return_array := false; parse_int_train_size := None |} []
    = Returns (r, w')
    /\ (length (train_of r) + length (test_of r) = length testArray)%nat
    /\ Permutation (train_of r ++ test_of r) testArray.
Proof.
  exact (train_test_split_partitions (C := lcg_contract) JUndefined testArray 7 []).
Defined.

Lemma fold_disjointness_witness :
  exists (assigned : list (list (option nat))) (w' : world (R := LCG.random_js)),
    cross_validation_split None (positions_of testArray)
      {| folds := Some 3; fold_random_state := Some 7 |} [] = Returns (assigned, w')
    /\ cross_validation_split JUndefined testArray
         {| folds := Some 3; fold_random_state := Some 7 |} []
       = Returns (map (map (row_at JUndefined testArray)) assigned, w')
    /\ (forall a b i, In (Some i) (nth a assigned []) ->
                      In (Some i) (nth b assigned []) -> a = b)
    /\ (forall a i, In (Some i) (nth a assigned []) -> (i < length testArray)%nat).
Proof.
  exact (fold_disjointness (C := lcg_contract) JUndefined testArray
           {| folds := Some 3; fold_random_state := Some 7 |} []).
Defined.



Section FoldCounts.
Context {R : RandomJS} {C : RandomJS_contract R} {V : Type}.
Variable undefined : V.

Lemma cross_validation_split_returns (D : list V) (o : fold_options) (w : world) :
  exists split w',
    cross_validation_split undefined D o w = Returns (split, w')
    /\ length split = Z.to_nat (Z.abs (or_elseZ (folds o) 3))
    /\ Forall (fun fold =>
                 length fold =
                 Z.to_nat (parseInt10 (inject_Z (Z.of_nat (length D))
                                       / inject_Z (or_elseZ (folds o) 3))%Q)) split.
Proof.
  destruct (cross_validation_pool_returns undefined D o w)
    as (split & rest & w' & E & H).
  exists split, w'. unfold cross_validation_split, bind. rewrite E. auto.
Qed.

(** C4, at a dataset of one row and two million folds: the quotient
    [1 / 2000000] prints as [5e-7], of which [parseInt] reads 5, so every
    fold has length 5 (one row at most, padded with [undefined]) although
    [floor(1 / 2000000)] is 0. *)
Theorem tiny_quotient_fold_size (x : V) (s : option Z) (w : world) :
  exists split w',
    cross_validation_split undefined [x]
      {| folds := Some 2000000; fold_random_state := s |} w = Returns (split, w')
    /\ Z.of_nat (length split) = 2000000
    /\ Forall (fun fold => length fold = 5%nat) split
    /\ Z.of_nat (length [x]) / 2000000 = 0.
Proof.
  destruct (cross_validation_split_returns [x]
              {| folds := Some 2000000; fold_random_state := s |} w)
    as (split & w' & E & Hlen & Hall).
  exists split, w'. split; [exact E|].
  change (or_elseZ (folds {| folds := Some 2000000; fold_random_state := s |}) 3)
    with 2000000 in Hlen, Hall.
  change (parseInt10 (inject_Z (Z.of_nat (length [x])) / inject_Z 2000000)%Q)
    with 5 in Hall.
  split; [|split].
  - rewrite Hlen, Z2Nat.id by apply Z.abs_nonneg. reflexivity.
  - exact Hall.
  - reflexivity.
Qed.


End FoldCounts.

Lemma tiny_quotient_fold_size_witness :
  exists split w',
    cross_validation_split (R := LCG.random_js) JUndefined [JNum 20]
      {| folds := Some 2000000; fold_random_state := Some 0 |} [] = Returns (split, w')
    /\ Z.of_nat (length split) = 2000000
    /\ Forall (fun fold => length fold = 5%nat) split
    /\ Z.of_nat (length [JNum 20]) / 2000000 = 0.
Proof.
  exact (tiny_quotient_fold_size (C := lcg_contract) JUndefined (JNum 20) (Some 0) []).
Defined.




Section RegressionMode.
Context {R : RandomJS} {C : RandomJS_contract R} {V : Type} {ML : MLCollaborators V}.
Variable undefined : V.

Hypothesis DataSet_new_returns : forall d, exists ds, DataSet_new d = Returns ds.
Hypothesis columnMatrix_returns : forall ds f, exists c, columnMatrix ds f = Returns c.
Hypothesis pivotVector_returns : forall c, exists l, pivotVector c = Returns l.
Hypothesis Matrix_new_returns : forall c, exists m, Matrix_new c = Returns m.




End RegressionMode.




(** ** calc.js *)

Import Calc.

(** ** The stable sort *)

Section SortFacts.
Context {A : Type}.
Variable key : A -> Q.

Lemma insert_in (x : A) (l : list A) (y : A) :
  In y (insert (descending key) x l) <-> y = x \/ In y l.
Proof.
  induction l as [|z l IH]; simpl.
  - intuition.
  - destruct (Qlt_bool 0 (descending key z x)); simpl; rewrite ?IH; intuition.
Qed.

Lemma insert_perm (x : A) (l : list A) : Permutation (insert (descending key) x l) (x :: l).
Proof.
  induction l as [|z l IH]; simpl; auto.
  destruct (Qlt_bool 0 (descending key z x)); auto.
  rewrite IH. apply perm_swap.
Qed.

Lemma insert_sorted (x : A) (l : list A) :
  StronglySorted (before key) l -> StronglySorted (before key) (insert (descending key) x l).
Proof.
  induction 1 as [|z l Hs IH Hz]; simpl.
  - repeat constructor.
  - destruct (Qlt_bool 0 (descending key z x)) eqn:E; unfold Qlt_bool, descending in E.
    + apply negb_true_iff in E.
      assert (Hlt : (key z < key x)%Q).
      { destruct (Qlt_le_dec (key z) (key x)) as [H|H]; auto.
        assert (Qle_bool (key x - key z) 0 = true) by (apply Qle_bool_iff; lra).
        congruence. }
      constructor; [constructor; auto|].
      constructor; [unfold before; lra|].
      rewrite Forall_forall in *. intros y Hy. specialize (Hz y Hy).
      unfold before in *. lra.
    + apply negb_false_iff, Qle_bool_iff in E.
      constructor; auto.
      rewrite Forall_forall in *. intros y Hy.
      apply insert_in in Hy. destruct Hy as [->|Hy]; auto.
      unfold before. lra.
Qed.

Lemma sort_from_sorted (l acc : list A) :
  StronglySorted (before key) acc ->
  StronglySorted (before key) (fold_left (fun acc x => insert (descending key) x acc) l acc).
Proof.
  revert acc. induction l as [|x l IH]; intros acc Hacc; simpl; auto.
  apply IH, insert_sorted, Hacc.
Qed.

Lemma sort_from_perm (l acc : list A) :
  Permutation (fold_left (fun acc x => insert (descending key) x acc) l acc) (l ++ acc).
Proof.
  revert acc. induction l as [|x l IH]; intros acc; simpl; auto.
  rewrite IH, insert_perm. symmetry. apply Permutation_middle.
Qed.

Lemma sort_sorted (l : list A) : StronglySorted (before key) (sort (descending key) l).
Proof. apply sort_from_sorted. constructor. Qed.

Lemma sort_perm (l : list A) : Permutation (sort (descending key) l) l.
Proof. unfold sort. rewrite sort_from_perm. now rewrite app_nil_r. Qed.

End SortFacts.

Lemma summarize_sorted (transactions : list (list jsval)) (m : jsmap) (found : list itemset) :
  StronglySorted (fun a b => (s_support b <= s_support a)%Q)
                 (summarize transactions m found).
Proof. unfold summarize. apply (sort_sorted s_support). Qed.

Lemma summarize_pairs (transactions : list (list jsval)) (m : jsmap) (found : list itemset) :
  Forall (fun r => (2 <= length (s_items r))%nat) (summarize transactions m found).
Proof.
  unfold summarize. apply Forall_forall. intros r Hr.
  apply (Permutation_in _ (sort_perm s_support _)) in Hr.
  apply filter_In in Hr. destruct Hr as [_ Hr].
  apply Nat.ltb_lt in Hr. lia.
Qed.

(** C8.  Whenever the miner resolves, the summary that
    [assocationRuleLearning] resolves with is sorted by support, largest
    first, and holds no itemset of fewer than two items, whatever
    [minLength] is configured. *)
Theorem rule_summary_sorted_and_filtered {F : FPGrowthLib}
        (transactions : list (list jsval)) (support : option Q) (minLength : option Z)
        (summary_flag : option bool) (labels : option jsmap)
        (fpgrowth : FPGrowth) (found : list itemset) :
  summary_flag <> Some false ->
  FPGrowth_new (match support with Some s => s | None => (4 # 10)%Q end) = Returns fpgrowth ->
  exec fpgrowth transactions = Resolved found ->
  exists summary,
    assocationRuleLearning transactions
      {| o_support := support; o_minLength := minLength;
         o_summary := summary_flag; o_valuesMap := labels |}
    = Resolved (Summary summary)
    /\ StronglySorted (fun a b => (s_support b <= s_support a)%Q) summary
    /\ Forall (fun r => (2 <= length (s_items r))%nat) summary.
Proof.
  intros Hflag Hnew Hexec. unfold assocationRuleLearning.
  cbn [o_support o_minLength o_summary o_valuesMap].
  rewrite Hnew, Hexec.
  assert (Hs : match summary_flag with Some b => b | None => true end = true).
  { destruct summary_flag as [[|]|]; congruence. }
  rewrite Hs. eexists. split; [reflexivity|]. split.
  - apply summarize_sorted.
  - apply summarize_pairs.
Qed.

Lemma rule_summary_sorted_and_filtered_witness :
  exists summary,
    assocationRuleLearning (F := fixed_miner mined)
      [[JStr "0"; JStr "1"]; [JStr "1"; JStr "2"]; [JStr "0"; JStr "1"; JStr "2"]]%string
      {| o_support := None; o_minLength := Some 3;
         o_summary := Some true; o_valuesMap := None |}
    = Resolved (Summary summary)
    /\ StronglySorted (fun a b => (s_support b <= s_support a)%Q) summary
    /\ Forall (fun r => (2 <= length (s_items r))%nat) summary.
Proof.
  exact (rule_summary_sorted_and_filtered (F := fixed_miner mined)
           [[JStr "0"; JStr "1"]; [JStr "1"; JStr "2"]; [JStr "0"; JStr "1"; JStr "2"]]%string
           None (Some 3) (Some true) None (4 # 10)%Q mined
           ltac:(discriminate) eq_refl eq_refl).
Defined.

(** C9, at a row whose first cell reads like a token: the value ["a"] is
    encoded as token ["1"], and looking up ["1"] returns ["b"], not ["a"]. *)
Theorem token_lookup_collides :
  let encoded := getTransactions
                   [[("x", JStr "1"); ("y", JStr "a"); ("z", JStr "b")]]%string
                   no_options in
  Map_get (valuesMap encoded) (JStr "a") = JStr "1"
  /\ Map_get (valuesMap encoded) (JStr "1") = JStr "b"
  /\ transactions encoded = [[JStr "b"; JStr "1"; JStr "1"]].
Proof. vm_compute. repeat split. Qed.

(** C10 does not hold for the key [excludeEmptyTransactions]: set to
    [false], the row without cells is dropped all the same. *)
Lemma respelled_option_is_ignored :
  transactions (getTransactions
                  [[("Country", JStr "Brazil")]; []; [("Country", JStr "Ghana")]]%string
                  (with_option "excludeEmptyTransactions" (JBool false) no_options))
  = [[JStr "0"]; [JStr "1"]].
Proof. vm_compute. reflexivity. Qed.

Lemma encode_rows_length (data : list jsobject) :
  forall st, length (snd (encode_rows st data)) = length data.
Proof.
  induction data as [|row data IH]; intros st; cbn [encode_rows]; auto.
  destruct (encode_row st row) as [st1 t].
  specialize (IH st1). destruct (encode_rows st1 data) as [st2 ts].
  cbn [snd length] in *. congruence.
Qed.

(** C10, for the key the code reads.  [getTransactions] encodes every row;
    with [exludeEmptyTranscations] set to a falsy value all encoded rows are
    returned, the empty ones included, and with the key absent or truthy
    exactly the rows without tokens are left out. *)
Theorem empty_rows_option (data : list jsobject) (options : options_bag) :
  let encoded := snd (encode_rows ([], []) data) in
  let kept := transactions (getTransactions data options) in
  length encoded = length data
  /\ (forall v, options "exludeEmptyTranscations"%string = Some v ->
                truthy v = false -> kept = encoded)
  /\ (forall v, options "exludeEmptyTranscations"%string = Some v ->
                truthy v = true ->
                kept = filter (fun row => negb (Nat.eqb (length row) 0)) encoded)
  /\ (options "exludeEmptyTranscations"%string = None ->
      kept = filter (fun row => negb (Nat.eqb (length row) 0)) encoded).
Proof.
  cbv zeta. split; [apply encode_rows_length|].
  unfold getTransactions, get_property, Object_assign.
  destruct (encode_rows ([], []) data) as [[vs m] ts]. cbn [transactions snd].
  repeat split.
  - intros v -> Hv. now rewrite Hv.
  - intros v -> Hv. now rewrite Hv.
  - intros ->. reflexivity.
Qed.

Lemma empty_rows_option_witness :
  let data := [[("Country", JStr "Brazil")]; []; [("Country", JStr "Ghana")]]%string in
  let options := with_option "exludeEmptyTranscations" (JBool false) no_options in
  options "exludeEmptyTranscations"%string = Some (JBool false)
  /\ truthy (JBool false) = false
  /\ transactions (getTransactions data options) = [[JStr "0"]; []; [JStr "1"]].
Proof.
  cbv zeta. split; [reflexivity|]. split; [reflexivity|].
  exact (proj1 (proj2 (empty_rows_option
           [[("Country", JStr "Brazil")]; []; [("Country", JStr "Ghana")]]%string
           (with_option "exludeEmptyTranscations" (JBool false) no_options)))
           (JBool false) eq_refl eq_refl).
Defined.

(** * Further properties *)

(** ** Splitting *)

Lemma subsequence_refl {A} (l : list A) : subsequence l l.
Proof. induction l; [apply sub_nil | apply sub_keep; assumption]. Qed.

Lemma subsequence_trans {A} (l1 l2 l3 : list A) :
  subsequence l1 l2 -> subsequence l2 l3 -> subsequence l1 l3.
Proof.
  intros H12 H23. revert l1 H12.
  induction H23 as [|x l2 l3 H IH|x l2 l3 H IH]; intros l1 H12.
  - exact H12.
  - constructor. now apply IH.
  - inversion H12; subst.
    + constructor. now apply IH.
    + apply sub_keep. now apply IH.
Qed.

Lemma subsequence_nil {A} (l : list A) : subsequence l [] -> l = [].
Proof. now inversion 1. Qed.

Lemma remove_at_subsequence {A} (k : nat) : forall a : list A,
  subsequence (firstn k a ++ skipn (S k) a) a.
Proof.
  induction k as [|k IH]; intros [|x a]; simpl.
  - constructor.
  - constructor. apply subsequence_refl.
  - constructor.
  - apply sub_keep. apply IH.
Qed.

Lemma splice1_subsequence {V} (a : list V) (index : Z) :
  subsequence (snd (splice1 a index)) a.
Proof. unfold splice1; cbn [snd]. apply remove_at_subsequence. Qed.

Lemma splice1_empty {V} (index : Z) : splice1 (@nil V) index = ([], []).
Proof.
  unfold splice1. rewrite firstn_nil, !skipn_nil. reflexivity.
Qed.

Lemma Qlt_bool_ceiling (a : Z) (q : Q) :
  Qlt_bool (inject_Z a) q = (a <? Qceiling q).
Proof.
  unfold Qlt_bool.
  destruct (Z.ltb_spec a (Qceiling q)) as [H|H].
  - apply negb_true_iff. destruct (Qle_bool q (inject_Z a)) eqn:E; auto.
    apply Qle_bool_iff in E.
    apply Qceiling_resp_le in E. rewrite Qceiling_Z in E. lia.
  - apply negb_false_iff, Qle_bool_iff.
    apply Qle_trans with (inject_Z (Qceiling q)).
    + apply Qle_ceiling.
    + rewrite <- Zle_Qle. exact H.
Qed.

Section GeneralSampling.
Context {R : RandomJS} {C : RandomJS_contract R} {V : Type}.
Variable undefined : V.

(** The loop with a fractional size runs as with the size rounded up. *)
Lemma draw_while_ceiling (fuel : nat) :
  forall (r : nat) (size : Q) (out pool : list V) (w : world),
  draw_while undefined fuel r size out pool w
  = draw_while undefined fuel r (inject_Z (Qceiling size)) out pool w.
Proof.
  induction fuel as [|fuel IH]; intros r size out pool w; cbn [draw_while];
    rewrite !Qlt_bool_ceiling, Qceiling_Z; destruct (_ <? _); try reflexivity.
  unfold bind. destruct (Random_integer _ _ r w) as [[i w1]| |]; try reflexivity.
  destruct (splice1 pool i). apply IH.
Qed.

(** What the loop draws: rows of the pool while it lasts, each removed
    from it, then [undefined]. *)
Lemma draw_while_general (fuel : nat) :
  forall (r : nat) (t : Z) (out pool : list V) (w : world),
  (r < length w)%nat ->
  (Z.to_nat (t - Z.of_nat (length out)) <= fuel)%nat ->
  exists taken pool' w',
    let pad := (Z.to_nat (t - Z.of_nat (length out)) - length pool)%nat in
    draw_while undefined fuel r (inject_Z t) out pool w
    = Returns ((out ++ taken ++ repeat undefined pad, pool'), w')
    /\ length w' = length w
    /\ length (taken ++ repeat undefined pad) = Z.to_nat (t - Z.of_nat (length out))
    /\ Permutation (taken ++ pool') pool
    /\ subsequence pool' pool
    /\ (pad <> 0%nat -> pool' = []).
Proof.
  induction fuel as [|fuel IH]; intros r t out pool w Hr Hfuel;
    cbn [draw_while]; rewrite Qlt_bool_inject_Z;
    destruct (Z.ltb_spec (Z.of_nat (length out)) t) as [Hlt|Hge];
    try lia;
    try (exists [], pool, w; cbv zeta;
         replace (Z.to_nat (t - Z.of_nat (length out))) with 0%nat by lia;
         cbn [Nat.sub repeat app length]; rewrite app_nil_r; unfold ret;
         repeat split; auto using subsequence_refl; congruence).
  unfold bind at 1.
  destruct (Random_integer_returns (Z.of_nat (length pool)) r w Hr)
    as (i & w1 & -> & Hw1 & Hi).
  pose proof (splice1_perm pool i) as Hperm.
  pose proof (splice1_subsequence pool i) as Hsub.
  pose proof (splice1_inside pool i) as Hin.
  destruct (splice1 pool i) as [removed rest] eqn:Es; cbn [fst snd] in *.
  assert (Hr1 : (r < length w1)%nat) by lia.
  assert (Hout : length (out ++ [first undefined removed]) = S (length out))
    by (rewrite length_app; simpl; lia).
  destruct (IH r t (out ++ [first undefined removed]) rest w1 Hr1)
    as (taken & pool' & w' & E & Hw' & Hlen & Hp & Hs & Hpad).
  { rewrite Hout; lia. }
  cbv zeta in E. rewrite Hout in E, Hlen, Hpad.
  rewrite E. cbv zeta.
  set (d := Z.to_nat (t - Z.of_nat (length out))) in *.
  replace (Z.to_nat (t - Z.of_nat (S (length out)))) with (d - 1)%nat in * by lia.
  assert (Hd : (0 < d)%nat) by lia.
  rewrite length_app, repeat_length in Hlen.
  destruct pool as [|y pool].
  - (* nothing left to draw *)
    rewrite splice1_empty in Es. injection Es as <- <-.
    apply Permutation_sym, Permutation_nil in Hp. apply app_eq_nil in Hp.
    destruct Hp as [-> ->].
    exists [], [], w'. cbn [app length] in *. rewrite Nat.sub_0_r in *.
    rewrite <- app_assoc. unfold first; cbn [app nth].
    replace (undefined :: repeat undefined (d - 1)) with (repeat undefined d)
      by (destruct d; [lia | simpl; now rewrite Nat.sub_0_r]).
    rewrite Nat.sub_0_r.
    repeat split; auto using sub_nil, repeat_length; try lia.
  - destruct Hin as [x Hx]; [cbn [length] in *; lia|]. subst removed.
    assert (Hrest : length rest = length pool).
    { apply Permutation_length in Hperm. simpl in Hperm. lia. }
    exists (x :: taken), pool', w'.
    rewrite <- app_assoc. cbn [app first nth length].
    replace (d - S (length pool))%nat with (d - 1 - length rest)%nat by lia.
    rewrite length_app, repeat_length.
    repeat split; auto; try lia.
    + simpl. rewrite <- Hperm. simpl. constructor. exact Hp.
    + eapply subsequence_trans; eauto.
Qed.

End GeneralSampling.

Lemma Qabs_nonneg_id (x : Q) : (0 <= x)%Q -> Qabs x = x.
Proof.
  destruct x as [n d]. unfold Qle; cbn [Qnum Qden]. intros H.
  unfold Qabs. rewrite Z.abs_eq by lia. reflexivity.
Qed.

(** In the plain-decimal regime [parseInt] rounds a non-negative number
    down. *)
Lemma parseInt10_floor (x : Q) :
  (0 <= x)%Q -> (x == 0 \/ (1 # 1000000) <= x)%Q -> (x < inject_Z (10 ^ 21))%Q ->
  parseInt10 x = Qfloor x.
Proof.
  intros H0 Hreg Hbig. unfold parseInt10.
  destruct (Qeq_bool x 0) eqn:E0.
  - apply Qeq_bool_eq in E0. rewrite E0. reflexivity.
  - rewrite (Qabs_nonneg_id x H0).
    assert (Hlow : ((1 # 1000000) <= x)%Q).
    { destruct Hreg as [Hz|Hl]; auto.
      apply Qeq_eq_bool in Hz. congruence. }
    apply Qle_bool_iff in Hlow. rewrite Hlow.
    assert (Hlt : Qlt_bool x (inject_Z (10 ^ 21)) = true).
    { unfold Qlt_bool. apply negb_true_iff.
      destruct (Qle_bool (inject_Z (10 ^ 21)) x) eqn:E; auto.
      apply Qle_bool_iff in E. lra. }
    rewrite Hlt. cbn [andb].
    destruct x as [n d]. cbn [Qnum Qden Qfloor].
    apply Z.quot_div_nonneg; [|lia].
    unfold Qle in H0; cbn [Qnum Qden] in H0. lia.
Qed.

Section SplitSizes.
Context {R : RandomJS} {C : RandomJS_contract R} {V : Type}.
Variable undefined : V.

(** The train list for a count [size]: its length, and where its entries
    come from. *)
Lemma sample_train (D : list V) (size : Q) (s : Z) (w : world) :
  exists taken test w',
    let train := taken ++ repeat undefined (Z.to_nat (Qceiling size) - length D) in
    draw_while undefined (passes size) (length w) size [] D (w ++ [seed mt19937 s])
    = Returns ((train, test), w')
    /\ length train = Z.to_nat (Qceiling size)
    /\ Permutation (taken ++ test) D
    /\ subsequence test D
    /\ ((Z.to_nat (Qceiling size) - length D)%nat <> 0%nat -> test = []).
Proof.
  rewrite draw_while_ceiling. unfold passes.
  destruct (draw_while_general undefined (Z.to_nat (Qceiling size)) (length w)
              (Qceiling size) [] D (w ++ [seed mt19937 s]))
    as (taken & test & w' & E & _ & Hlen & Hp & Hs & Hpad).
  { rewrite length_app; simpl; lia. }
  { simpl. lia. }
  cbv zeta in E. cbn [length app] in E, Hlen, Hpad.
  rewrite Z.sub_0_r in E, Hlen, Hpad.
  exists taken, test, w'. cbv zeta. auto.
Qed.





(** The split for a count that the dataset covers. *)
Lemma split_within (D : list V) (size : Q) (s : Z) (w : world) :
  0 <= Qceiling size <= Z.of_nat (length D) ->
  exists train test w',
    draw_while undefined (passes size) (length w) size [] D (w ++ [seed mt19937 s])
    = Returns ((train, test), w')
    /\ Z.of_nat (length train) = Qceiling size
    /\ (length train + length test = length D)%nat
    /\ Permutation (train ++ test) D
    /\ subsequence test D.
Proof.
  intros Hc.
  destruct (sample_train D size s w) as (taken & test & w' & E & Hlen & Hp & Hs & _).
  cbv zeta in E, Hlen.
  replace (Z.to_nat (Qceiling size) - length D)%nat with 0%nat in E, Hlen by lia.
  cbn [repeat] in E, Hlen. rewrite app_nil_r in E, Hlen.
  exists taken, test, w'. repeat split; auto; try lia.
  apply Permutation_length in Hp. now rewrite length_app in Hp.
Qed.

Lemma length_bound_Q (D : list V) (t : Q) :
  (0 <= t <= 1)%Q ->
  (0 <= t * inject_Z (Z.of_nat (length D)) <= inject_Z (Z.of_nat (length D)))%Q.
Proof.
  intros [H0 H1].
  assert (Hn : (0 <= inject_Z (Z.of_nat (length D)))%Q)
    by (rewrite <- (Zle_Qle 0); lia).
  split.
  - apply Qmult_le_0_compat; auto.
  - rewrite <- (Qmult_1_l (inject_Z (Z.of_nat (length D)))) at 2.
    apply Qmult_le_compat_r; auto.
Qed.

Lemma floor_within (x : Q) (n : Z) : (0 <= x <= inject_Z n)%Q -> 0 <= Qfloor x <= n.
Proof.
  intros [H0 H1]. split.
  - apply (Qfloor_resp_le 0 x) in H0. exact H0.
  - apply Qfloor_resp_le in H1. now rewrite Qfloor_Z in H1.
Qed.


Lemma below_1e21 (x : Q) (n : Z) :
  (x <= inject_Z n)%Q -> n < 2 ^ 32 -> (x < inject_Z (10 ^ 21))%Q.
Proof.
  intros Hx Hn. eapply Qle_lt_trans; [exact Hx|].
  rewrite <- Zlt_Qlt. change (2 ^ 32) with 4294967296 in Hn.
  change (10 ^ 21) with 1000000000000000000000. lia.
Qed.





End SplitSizes.

Section FoldRows.
Context {R : RandomJS} {C : RandomJS_contract R} {V : Type}.
Variable undefined : V.




End FoldRows.

Section Scores.
Context {R : RandomJS} {C : RandomJS_contract R} {V : Type} {ML : MLCollaborators V}.
Variable undefined : V.

Hypothesis DataSet_new_returns : forall d, exists ds, DataSet_new d = Returns ds.
Hypothesis columnMatrix_returns : forall ds f, exists c, columnMatrix ds f = Returns c.
Hypothesis pivotVector_returns : forall c, exists l, pivotVector c = Returns l.
Hypothesis Matrix_new_returns : forall c, exists m, Matrix_new c = Returns m.

Lemma score_fold_without_classifier (config : score_options V) (x_test : Columns)
      (actuals : option Labels) (fold : list V) (w : world) :
  regression config = false ->
  score_fold config x_test actuals None fold w
  = Throws "TypeError: Cannot read property 'train' of undefined".
Proof.
  intros Hreg. unfold score_fold, bind, lift, ret.
  destruct (DataSet_new_returns (Some fold)) as [ds ->].
  destruct (columnMatrix_returns ds (default [["X"%string]] (dependentFeatures config)))
    as [x ->].
  destruct (columnMatrix_returns ds (default [["Y"%string]] (independentFeatures config)))
    as [y ->].
  destruct (Matrix_new_returns x) as [mx Hx].
  destruct (Matrix_new_returns y) as [my Hy].
  destruct (default true (use_train_x_matrix config));
    destruct (default false (use_train_y_matrix config));
    rewrite ?Hx, ?Hy, Hreg; reflexivity.
Qed.

(** X12.  Without a classifier, and outside regression mode, the call throws
    when it reaches the first fold, its data collaborators having
    returned: [classifier.train] is read off [undefined]. *)
Theorem missing_classifier_throws (options : score_options V) (w : world) :
  regression options = false -> classifier options = None ->
  raises (cross_validate_score undefined options w).
Proof.
  intros Hreg Hclf. eexists.
  destruct (cross_validation_split_returns undefined (default [] (dataset options))
              {| folds := Some (default 10 (score_folds options));
                 fold_random_state := score_random_state options |} w)
    as (folds & w' & E & Hlen & _).
  unfold cross_validate_score. unfold bind at 1. rewrite E.
  unfold bind at 1 2 3 4. unfold lift at 1 2 3 4.
  destruct (DataSet_new_returns (testingset options)) as [ds ->].
  destruct (columnMatrix_returns ds (default [["Y"%string]] (independentFeatures options)))
    as [y ->].
  destruct (columnMatrix_returns ds (default [["X"%string]] (dependentFeatures options)))
    as [x ->].
  destruct (pivotVector_returns y) as [l ->].
  rewrite Hclf.
  destruct folds as [|fold folds].
  - exfalso. cbn [length folds] in Hlen.
    pose proof (or_elseZ_nonzero (Some (default 10 (score_folds options))) 3 ltac:(lia)).
    lia.
  - cbn [map_folds]. unfold bind at 1.
    now rewrite score_fold_without_classifier.
Qed.

Hypothesis train_returns : forall c x y, exists c', train c x y = Returns c'.
Hypothesis predict_returns : forall c x, exists p, predict c x = Returns p.
Hypothesis fromLabels_returns : forall a e, exists cm, fromLabels a e = Returns cm.
Hypothesis getAccuracy_returns : forall cm, exists a, getAccuracy cm = Returns a.




End Scores.

Section Defaults.
Context {R : RandomJS} {C : RandomJS_contract R} {V : Type}.
Variable undefined : V.

(** X2.  Without size options four fifths of the rows, rounded down, are
    drawn into the train list. *)
Theorem default_split_is_four_fifths (D : list V) (s : option Z) (ra : bool) (w : world) :
  let n := Z.of_nat (length D) in
  n < 2 ^ 32 ->
  exists r w',
    train_test_split undefined D
      {| test_size := None; train_size := None; random_state := s;
         return_array := ra; parse_int_train_size := None |} w
    = Returns (r, w')
    /\ Z.of_nat (length (train_of r)) = 4 * n / 5
    /\ Z.of_nat (length (test_of r)) = n - 4 * n / 5
    /\ Permutation (train_of r ++ test_of r) D.
Proof.
  intros n Hn.
  set (x := ((1 - (2 # 10)) * inject_Z n)%Q).
  assert (Hx : (0 <= x <= inject_Z n)%Q).
  { apply (length_bound_Q D (1 - (2 # 10))). lra. }
  assert (Hfl : Qfloor x = 4 * n / 5).
  { change x with (8 * n # 10)%Q. cbn [Qfloor].
    replace (8 * n) with (2 * (4 * n)) by lia.
    change (Z.pos 10) with (2 * 5). apply Z.div_mul_cancel_l; lia. }
  assert (Hp : parseInt10 x = Qfloor x).
  { apply parseInt10_floor; [lra| |apply (below_1e21 x n); tauto].
    destruct (Z.eq_dec n 0) as [E|E].
    - left. unfold x. rewrite E. apply Qmult_0_r.
    - right. assert ((1 <= inject_Z n)%Q) by (rewrite <- (Zle_Qle 1); lia).
      unfold x. lra. }
  unfold train_test_split. unfold bind at 1. unfold new_seeded_engine.
  cbv zeta. cbn [train_size test_size random_state return_array parse_int_train_size
                 app truthyQ or_elseQ].
  fold n. fold x. rewrite Hp.
  destruct (split_within undefined D (inject_Z (Qfloor x)) (or_elseZ s 0) w)
    as (train & test & w' & E & Hlen & Hsum & Hperm & Hsub).
  { rewrite Qceiling_Z. now apply floor_within. }
  unfold bind. rewrite E. unfold ret. rewrite Qceiling_Z in Hlen.
  exists (if ra then SplitArray train test else SplitObject train test), w'.
  destruct ra; cbn [train_of test_of]; repeat split; auto; unfold n in *; lia.
Qed.


End Defaults.

Section Frame.
Context {R : RandomJS}.

Lemma set_nth_last {A} (l : list A) (x y : A) :
  set_nth (length l) y (l ++ [x]) = l ++ [y].
Proof. induction l as [|a l IH]; simpl; congruence. Qed.

(** The engine created by a call, as the last of the store. *)
Lemma Random_integer_own (lo hi : Z) (w : world) (e : engine) (i : Z) (w' : world) :
  Random_integer lo hi (length w) (w ++ [e]) = Returns (i, w') ->
  exists e', w' = w ++ [e'].
Proof.
  unfold Random_integer. rewrite nth_error_fresh.
  destruct (integer lo hi e) as [[j e']|]; [|discriminate].
  intros [= <- <-]. exists e'. apply set_nth_last.
Qed.

Lemma draw_while_own {V} (undefined : V) (fuel : nat) :
  forall (size : Q) (out pool : list V) (w : world) (e : engine) x (w' : world),
  draw_while undefined fuel (length w) size out pool (w ++ [e]) = Returns (x, w') ->
  exists e', w' = w ++ [e'].
Proof.
  induction fuel as [|fuel IH]; intros size out pool w e x w';
    cbn [draw_while]; destruct (Qlt_bool _ size);
    try discriminate;
    try (unfold ret; intros [= <- <-]; eauto).
  intros H. apply bind_Returns in H. destruct H as (i & w1 & H1 & H).
  apply Random_integer_own in H1. destruct H1 as [e1 ->].
  destruct (splice1 pool i). eapply IH; eauto.
Qed.

Lemma fold_loop_own {V} (undefined : V) (keys : list nat) :
  forall (fs : Z) (split : list (list V)) (pool : list V) (w : world) (e : engine)
         x (w' : world),
  fold_loop undefined keys (length w) fs split pool (w ++ [e]) = Returns (x, w') ->
  exists e', w' = w ++ [e'].
Proof.
  induction keys as [|key keys IH]; intros fs split pool w e x w'; cbn [fold_loop].
  - unfold ret; intros [= <- <-]; eauto.
  - intros H. apply bind_Returns in H. destruct H as ([fold pool1] & w1 & H1 & H).
    apply draw_while_own in H1. destruct H1 as [e1 ->].
    eapply IH; eauto.
Qed.

Lemma train_test_split_own {V} (undefined : V) (D : list V) (o : split_options)
      (w : world) r (w' : world) :
  train_test_split undefined D o w = Returns (r, w') -> exists e, w' = w ++ [e].
Proof.
  intros H. unfold train_test_split in H. apply bind_Returns in H.
  destruct H as (ref & w1 & H0 & H).
  unfold new_seeded_engine in H0. injection H0 as <- <-.
  apply bind_Returns in H. destruct H as ([train test] & w2 & H1 & H).
  apply draw_while_own in H1. destruct H1 as [e ->].
  unfold ret in H. injection H as _ <-. eauto.
Qed.

Lemma cross_validation_split_own {V} (undefined : V) (D : list V) (o : fold_options)
      (w : world) r (w' : world) :
  cross_validation_split undefined D o w = Returns (r, w') -> exists e, w' = w ++ [e].
Proof.
  intros H. unfold cross_validation_split in H. apply bind_Returns in H.
  destruct H as ([split rest] & w1 & H0 & H).
  unfold ret in H. injection H as _ <-.
  unfold cross_validation_pool in H0. apply bind_Returns in H0.
  destruct H0 as (ref & w2 & H0 & H1).
  unfold new_seeded_engine in H0. injection H0 as <- <-.
  apply fold_loop_own in H1. exact H1.
Qed.

(** X7.  A call creates one engine, works on it, and leaves the engines that
    exist as they are. *)
Theorem splits_use_their_own_engine {C : RandomJS_contract R} {V} (undefined : V)
        (D : list V) (o : split_options) (o' : fold_options) (w : world) :
  (exists r e, train_test_split undefined D o w = Returns (r, w ++ [e]))
  /\ (exists split e, cross_validation_split undefined D o' w = Returns (split, w ++ [e])).
Proof.
  split.
  - unfold train_test_split at 1. unfold bind at 1. unfold new_seeded_engine.
    cbv zeta. cbn [app].
    match goal with
    | |- context [draw_while undefined (passes ?q) _ ?q _ _] =>
        destruct (sample_train undefined D q (or_elseZ (random_state o) 0) w)
          as (taken & test & w' & E & _)
    end.
    cbv zeta in E.
    destruct (draw_while_own undefined _ _ _ _ _ _ _ _ E) as [e ->].
    unfold bind. rewrite E. unfold ret. eauto.
  - destruct (cross_validation_split_returns undefined D o' w) as (split & w' & E & _).
    destruct (cross_validation_split_own undefined D o' w split w' E) as [e ->]. eauto.
Qed.

End Frame.

(** ** Encoding and rules *)

Lemma jsval_eqb_eq (a b : jsval) : jsval_eqb a b = true <-> a = b.
Proof.
  destruct a, b; simpl; split; try discriminate; try reflexivity; intros H.
  - apply Bool.eqb_prop in H. congruence.
  - injection H as ->. apply Bool.eqb_reflx.
  - apply Z.eqb_eq in H. congruence.
  - injection H as ->. apply Z.eqb_refl.
  - apply String.eqb_eq in H. congruence.
  - injection H as ->. apply String.eqb_refl.
Qed.

Lemma jsval_eqb_neq (a b : jsval) : jsval_eqb a b = false <-> a <> b.
Proof.
  rewrite <- jsval_eqb_eq. destruct (jsval_eqb a b); split; congruence.
Qed.

Lemma jsval_eqb_refl (a : jsval) : jsval_eqb a a = true.
Proof. now apply jsval_eqb_eq. Qed.

(** *** Decimal strings *)

Lemma digit_char_value (d : Z) :
  0 <= d < 10 -> Z.of_nat (nat_of_ascii (digit_char d)) - 48 = d.
Proof.
  intros H. unfold digit_char. rewrite nat_ascii_embedding by lia. lia.
Qed.

Lemma digit_char_is_digit (d : Z) : 0 <= d < 10 -> is_digit (digit_char d) = true.
Proof.
  intros H. unfold is_digit, digit_char. rewrite nat_ascii_embedding by lia.
  apply andb_true_iff. split; apply Nat.leb_le; lia.
Qed.

Lemma digits_parse (fuel : nat) : forall (z : Z) (acc : string),
  (0 < fuel)%nat -> 0 <= z < 2 ^ Z.of_nat fuel ->
  parse_decimal (digits fuel z acc) 0 = parse_decimal acc z.
Proof.
  induction fuel as [|fuel IH]; intros z acc Hf Hz; [lia|].
  cbn [digits]. destruct (Z.ltb_spec z 10) as [Hlt|Hge].
  - cbn [parse_decimal]. rewrite digit_char_value.
    + rewrite Z.mod_small by lia. f_equal.
    + apply Z.mod_pos_bound. lia.
  - assert (Hq : 1 <= z / 10 < 2 ^ Z.of_nat fuel).
    { split.
      - apply Z.div_le_lower_bound; lia.
      - apply Z.div_lt_upper_bound; [lia|].
        rewrite Nat2Z.inj_succ, Z.pow_succ_r in Hz by lia. lia. }
    assert (Hfuel : (0 < fuel)%nat).
    { destruct fuel; [simpl in Hq; lia | lia]. }
    rewrite IH by (auto; lia).
    cbn [parse_decimal]. rewrite digit_char_value by (apply Z.mod_pos_bound; lia).
    f_equal. pose proof (Z.div_mod z 10 ltac:(lia)). lia.
Qed.

Lemma toString_fuel (z : Z) : 0 <= z -> z < 2 ^ Z.of_nat (S (Z.to_nat (Z.log2 z))).
Proof.
  intros Hz. rewrite Nat2Z.inj_succ, Z2Nat.id by apply Z.log2_nonneg.
  destruct (Z.eq_dec z 0) as [->|Hne]; [reflexivity|].
  apply Z.log2_spec. lia.
Qed.

(** [toString] is read back by [parse_decimal]. *)
Lemma parse_toString (z : Z) : 0 <= z -> parse_decimal (toString z) 0 = z.
Proof.
  intros Hz. unfold toString. rewrite digits_parse.
  - reflexivity.
  - lia.
  - split; [exact Hz | now apply toString_fuel].
Qed.

Lemma token_inj (a b : nat) : token a = token b -> a = b.
Proof.
  unfold token. intros [= H].
  apply (f_equal (fun s => parse_decimal s 0)) in H.
  rewrite !parse_toString in H by lia. lia.
Qed.

Lemma digits_all_digits (fuel : nat) : forall (z : Z) (acc : string),
  0 <= z -> all_digits acc = true -> all_digits (digits fuel z acc) = true.
Proof.
  induction fuel as [|fuel IH]; intros z acc Hz Hacc; cbn [digits]; auto.
  assert (Hd : all_digits (String (digit_char (z mod 10)) acc) = true).
  { cbn [all_digits]. rewrite digit_char_is_digit, Hacc; auto.
    apply Z.mod_pos_bound. lia. }
  destruct (z <? 10); auto.
  apply IH; auto. apply Z.div_pos; lia.
Qed.

Lemma digits_nonempty (fuel : nat) : forall (z : Z) (acc : string),
  (0 < fuel)%nat \/ acc <> EmptyString -> digits fuel z acc <> EmptyString.
Proof.
  induction fuel as [|fuel IH]; intros z acc H; cbn [digits].
  - destruct H; [lia | assumption].
  - destruct (z <? 10); [discriminate|].
    apply IH. right. discriminate.
Qed.

Lemma token_reads_as_number (k : nat) : reads_as_number (token k) = true.
Proof.
  unfold token, reads_as_number, toString.
  pose proof (digits_nonempty (S (Z.to_nat (Z.log2 (Z.of_nat k)))) (Z.of_nat k) ""
                ltac:(left; lia)) as Hne.
  pose proof (digits_all_digits (S (Z.to_nat (Z.log2 (Z.of_nat k)))) (Z.of_nat k) ""
                ltac:(lia) eq_refl) as Hall.
  destruct (digits _ _ _); [congruence | exact Hall].
Qed.

Lemma plain_not_token (v : jsval) (k : nat) : reads_as_number v = false -> v <> token k.
Proof.
  intros Hv ->. rewrite token_reads_as_number in Hv. discriminate.
Qed.

(** *** Maps and sets *)

Lemma Map_get_app_absent (m m' : jsmap) (k : jsval) :
  ~ In k (map fst m) -> Map_get (m ++ m') k = Map_get m' k.
Proof.
  induction m as [|[k' v] m IH]; simpl; intros H; auto.
  destruct (jsval_eqb k k') eqn:E.
  - apply jsval_eqb_eq in E. subst. tauto.
  - apply IH. tauto.
Qed.

Lemma Map_get_app_present (m m' : jsmap) (k : jsval) :
  In k (map fst m) -> Map_get (m ++ m') k = Map_get m k.
Proof.
  induction m as [|[k' v] m IH]; simpl; intros H; [tauto|].
  destruct (jsval_eqb k k') eqn:E; auto.
  apply IH. destruct H as [H|H]; auto.
  apply jsval_eqb_neq in E. congruence.
Qed.

Lemma Map_set_absent (m : jsmap) (k v : jsval) :
  ~ In k (map fst m) -> Map_set m k v = m ++ [(k, v)].
Proof.
  induction m as [|[k' v'] m IH]; simpl; intros H; auto.
  destruct (jsval_eqb k k') eqn:E.
  - apply jsval_eqb_eq in E. subst. tauto.
  - f_equal. apply IH. tauto.
Qed.

Lemma Set_has_In (s : jsset) (v : jsval) : Set_has s v = true <-> In v s.
Proof.
  unfold Set_has. rewrite existsb_exists. split.
  - intros (x & Hx & E). apply jsval_eqb_eq in E. now subst.
  - intros H. exists v. split; auto. apply jsval_eqb_refl.
Qed.

(** Adding the cells [cs] to a set keeps its members in place and appends
    the new ones, each once. *)
Lemma Set_add_all (cs : list jsval) : forall vs : jsset,
  NoDup vs ->
  exists new,
    fold_left Set_add cs vs = vs ++ new
    /\ NoDup (vs ++ new)
    /\ (forall x, In x new -> In x cs)
    /\ (forall x, In x cs -> In x (vs ++ new)).
Proof.
  induction cs as [|c cs IH]; intros vs Hnd; cbn [fold_left].
  - exists []. rewrite app_nil_r. repeat split; auto; simpl; tauto.
  - unfold Set_add at 2. destruct (Set_has vs c) eqn:E.
    + apply Set_has_In in E.
      destruct (IH vs Hnd) as (new & -> & Hn & Hsub & Hall).
      exists new. repeat split; auto.
      * intros x Hx. right. auto.
      * intros x [<-|Hx]; auto. apply in_or_app. now left.
    + assert (Hc : ~ In c vs).
      { intros H. apply Set_has_In in H. congruence. }
      destruct (IH (vs ++ [c])) as (new & -> & Hn & Hsub & Hall).
      { apply NoDup_app; auto.
        - repeat constructor. simpl; tauto.
        - intros x Hx [<-|[]]. contradiction. }
      exists (c :: new). rewrite <- app_assoc in *. cbn [app] in *.
      repeat split; auto.
      * intros x [<-|Hx]; [now left | right; auto].
      * intros x [<-|Hx]; auto. apply in_or_app. right. now left.
Qed.

(** *** The two-way map *)

Lemma two_way_length (vs : list jsval) : forall k,
  length (two_way_from k vs) = (2 * length vs)%nat.
Proof.
  induction vs as [|v vs IH]; intros k; simpl; auto. rewrite IH. lia.
Qed.

Lemma two_way_app (a b : list jsval) : forall k,
  two_way_from k (a ++ b) = two_way_from k a ++ two_way_from (k + length a) b.
Proof.
  induction a as [|v a IH]; intros k; simpl.
  - now rewrite Nat.add_0_r.
  - rewrite IH. do 4 f_equal. lia.
Qed.

Lemma two_way_keys (vs : list jsval) : forall k x,
  In x (map fst (two_way_from k vs)) <->
  In x vs \/ exists i, (i < length vs)%nat /\ x = token (k + i).
Proof.
  induction vs as [|v vs IH]; intros k x; simpl.
  - split; [tauto|]. intros [[]|(i & Hi & _)]. lia.
  - rewrite IH. split.
    + intros [H|[H|[H|(i & Hi & ->)]]]; auto.
      * right. exists 0%nat. rewrite Nat.add_0_r. split; [lia|auto].
      * right. exists (S i). split; [lia|]. f_equal. lia.
    + intros [[H|H]|(i & Hi & ->)]; auto.
      destruct i as [|i].
      * rewrite Nat.add_0_r. auto.
      * right. right. right. exists i. split; [lia|]. f_equal. lia.
Qed.

(** Every value of the list is sent to the token of its position, and the
    token back to it. *)
Lemma two_way_round_trip (vs : list jsval) : forall k v,
  NoDup vs -> Forall plain vs -> In v vs ->
  exists i, nth_error vs i = Some v
            /\ Map_get (two_way_from k vs) v = token (k + i)
            /\ Map_get (two_way_from k vs) (token (k + i)) = v.
Proof.
  induction vs as [|u vs IH]; intros k v Hnd Hpl Hin; [contradiction|].
  inversion Hnd as [|? ? Hu Hnd']; subst. inversion Hpl as [|? ? Hup Hpl']; subst.
  cbn [two_way_from Map_get].
  destruct Hin as [->|Hin].
  - exists 0%nat. rewrite Nat.add_0_r, jsval_eqb_refl.
    assert (E : jsval_eqb (token k) v = false).
    { apply jsval_eqb_neq. intros H. symmetry in H. revert H. now apply plain_not_token. }
    rewrite E, jsval_eqb_refl. auto.
  - destruct (IH (S k) v Hnd' Hpl' Hin) as (i & Hi & Hv & Ht).
    exists (S i). replace (k + S i)%nat with (S k + i)%nat by lia.
    assert (E1 : jsval_eqb v u = false).
    { apply jsval_eqb_neq. intros ->. contradiction. }
    assert (E2 : jsval_eqb v (token k) = false).
    { apply jsval_eqb_neq. apply plain_not_token.
      rewrite Forall_forall in Hpl'. now apply Hpl'. }
    assert (E3 : jsval_eqb (token (S k + i)) u = false).
    { apply jsval_eqb_neq. intros H. symmetry in H. revert H. now apply plain_not_token. }
    assert (E4 : jsval_eqb (token (S k + i)) (token k) = false).
    { apply jsval_eqb_neq. intros H. apply token_inj in H. lia. }
    rewrite E1, E2, E3, E4. auto.
Qed.

Lemma two_way_unknown (vs : list jsval) (k : nat) (v : jsval) :
  plain v -> ~ In v vs -> Map_get (two_way_from k vs) v = JUndefined.
Proof.
  intros Hv Hn.
  rewrite <- (app_nil_r (two_way_from k vs)), Map_get_app_absent; auto.
  rewrite two_way_keys. intros [H|(i & _ & H)]; auto.
  revert H. now apply plain_not_token.
Qed.

Lemma token_truthy (k : nat) : truthy (token k) = true.
Proof.
  pose proof (token_reads_as_number k) as H. unfold token in *.
  destruct (toString (Z.of_nat k)); [discriminate | reflexivity].
Qed.

(** *** Token assignment *)

Lemma assign_token_known (vs : list jsval) (v : jsval) :
  NoDup vs -> Forall plain vs -> In v vs ->
  assign_token (two_way_from 0 vs) v = two_way_from 0 vs.
Proof.
  intros Hnd Hpl Hin. unfold assign_token.
  destruct (two_way_round_trip vs 0 v Hnd Hpl Hin) as (i & _ & -> & _).
  now rewrite token_truthy.
Qed.

Lemma assign_token_new (vs : list jsval) (v : jsval) :
  NoDup vs -> Forall plain vs -> plain v -> ~ In v vs ->
  Z.of_nat (length vs) < 2 ^ 32 ->
  assign_token (two_way_from 0 vs) v = two_way_from 0 (vs ++ [v]).
Proof.
  intros Hnd Hpl Hv Hn Hsize. unfold assign_token.
  rewrite two_way_unknown by auto. cbn [truthy negb].
  unfold Map_size. rewrite two_way_length.
  destruct (Z.ltb_spec (Z.of_nat (2 * length vs)) 0); [lia|].
  rewrite parseInt10_quotient.
  - replace (Z.of_nat (2 * length vs) / 2) with (Z.of_nat (length vs))
      by (rewrite Nat2Z.inj_mul, Z.mul_comm, Z.div_mul; lia).
    fold (token (length vs)).
    rewrite two_way_app. cbn [two_way_from Nat.add].
    rewrite (Map_set_absent (two_way_from 0 vs)).
    + rewrite Map_set_absent.
      * now rewrite <- app_assoc.
      * rewrite map_app, in_app_iff, two_way_keys. cbn [map fst In].
        intros [[Hk|(i & Hi & Hk)]|[Hk|[]]].
        -- rewrite Forall_forall in Hpl. apply Hpl in Hk.
           unfold plain in Hk. rewrite token_reads_as_number in Hk. discriminate.
        -- apply token_inj in Hk. lia.
        -- revert Hk. now apply plain_not_token.
    + rewrite two_way_keys. intros [Hk|(i & _ & Hk)]; auto.
      revert Hk. now apply plain_not_token.
  - change (2 ^ 32) with 4294967296 in Hsize.
    change (10 ^ 21) with 1000000000000000000000. lia.
  - lia.
  - lia.
Qed.

Lemma assign_tokens_known (l vs : list jsval) :
  NoDup vs -> Forall plain vs -> incl l vs ->
  fold_left assign_token l (two_way_from 0 vs) = two_way_from 0 vs.
Proof.
  intros Hnd Hpl. induction l as [|v l IH]; intros Hl; cbn [fold_left]; auto.
  rewrite assign_token_known; auto.
  - apply IH. intros x Hx. apply Hl. now right.
  - apply Hl. now left.
Qed.

Lemma assign_tokens_new (new : list jsval) : forall vs,
  NoDup (vs ++ new) -> Forall plain (vs ++ new) ->
  Z.of_nat (length (vs ++ new)) < 2 ^ 32 ->
  fold_left assign_token new (two_way_from 0 vs) = two_way_from 0 (vs ++ new).
Proof.
  induction new as [|v new IH]; intros vs Hnd Hpl Hsize; cbn [fold_left].
  - now rewrite app_nil_r.
  - assert (Hv : ~ In v vs).
    { intros H. apply NoDup_remove_2 in Hnd. apply Hnd. apply in_or_app. now left. }
    rewrite Forall_app in Hpl. destruct Hpl as [Hpv Hpn].
    inversion Hpn as [|? ? Hpv' Hpn']; subst.
    rewrite length_app in Hsize. cbn [length] in Hsize.
    rewrite assign_token_new; auto.
    + replace (vs ++ v :: new) with ((vs ++ [v]) ++ new) in * by now rewrite <- app_assoc.
      apply IH; auto.
      * rewrite !Forall_app. repeat split; auto.
      * rewrite !length_app. cbn [length]. lia.
    + apply NoDup_remove_1 in Hnd. now apply NoDup_app_remove_r in Hnd.
    + lia.
Qed.

(** *** getTransactions *)

Lemma encode_rows_values (data : list jsobject) : forall (vs : jsset) (m : jsmap),
  fst (fst (encode_rows (vs, m) data)) = fold_left Set_add (cells data) vs.
Proof.
  induction data as [|row data IH]; intros vs m; cbn [encode_rows cells flat_map].
  - reflexivity.
  - rewrite fold_left_app. unfold encode_row at 1. cbn [fst snd].
    match goal with
    | |- context [encode_rows (?a, ?b) data] =>
        specialize (IH a b); destruct (encode_rows (a, b) data) as [[vs2 m2] ts]
    end.
    exact IH.
Qed.

(** X13.  The distinct cell values, each once. *)
Theorem values_are_the_distinct_cells (data : list jsobject) (options : options_bag) :
  NoDup (values (getTransactions data options))
  /\ forall v, In v (values (getTransactions data options)) <-> In v (cells data).
Proof.
  assert (E : values (getTransactions data options) = fold_left Set_add (cells data) []).
  { transitivity (fst (fst (encode_rows ([], []) data))).
    - unfold getTransactions.
      destruct (encode_rows ([], []) data) as [[vs m] ts]. reflexivity.
    - apply encode_rows_values. }
  rewrite E.
  destruct (Set_add_all (cells data) [] (NoDup_nil _)) as (new & -> & Hnd & Hsub & Hall).
  split; [exact Hnd|]. intros v. split; auto.
Qed.

Lemma two_way_prefix (vs more : list jsval) (c : jsval) :
  In c vs ->
  Map_get (two_way_from 0 (vs ++ more)) c = Map_get (two_way_from 0 vs) c.
Proof.
  intros H. rewrite two_way_app. apply Map_get_app_present.
  apply two_way_keys. now left.
Qed.

Lemma encoded_cells_defined (vs : list jsval) (cs : list jsval) :
  NoDup vs -> Forall plain vs -> incl cs vs ->
  filter is_defined (map (Map_get (two_way_from 0 vs)) cs)
  = map (Map_get (two_way_from 0 vs)) cs.
Proof.
  intros Hnd Hpl. induction cs as [|c cs IH]; intros Hcs; cbn [map filter]; auto.
  destruct (two_way_round_trip vs 0 c Hnd Hpl (Hcs c (or_introl eq_refl)))
    as (i & _ & E & _).
  rewrite E at 1. cbn [token is_defined]. f_equal.
  apply IH. intros x Hx. apply Hcs. now right.
Qed.

Lemma encode_row_two_way (vs : list jsval) (row : jsobject) :
  NoDup vs -> Forall plain vs -> Forall plain (Object_values row) ->
  Z.of_nat (length vs + length (Object_values row)) < 2 ^ 32 ->
  exists new,
    encode_row (vs, two_way_from 0 vs) row
    = ((vs ++ new, two_way_from 0 (vs ++ new)),
       map (Map_get (two_way_from 0 (vs ++ new))) (Object_values row))
    /\ NoDup (vs ++ new) /\ Forall plain (vs ++ new)
    /\ (length new <= length (Object_values row))%nat
    /\ incl (Object_values row) (vs ++ new).
Proof.
  intros Hnd Hpl Hrow Hsize. unfold encode_row. cbn [fst snd].
  destruct (Set_add_all (Object_values row) vs Hnd) as (new & -> & Hn & Hsub & Hall).
  assert (Hlen : (length new <= length (Object_values row))%nat).
  { apply NoDup_incl_length; [now apply NoDup_app_remove_l in Hn | exact Hsub]. }
  assert (Hpn : Forall plain (vs ++ new)).
  { apply Forall_app. split; auto. rewrite Forall_forall in *. auto. }
  exists new.
  assert (Em : fold_left assign_token (vs ++ new) (two_way_from 0 vs)
               = two_way_from 0 (vs ++ new)).
  { rewrite fold_left_app, assign_tokens_known by auto using incl_refl.
    apply assign_tokens_new; auto. rewrite length_app. lia. }
  rewrite Em, encoded_cells_defined by auto.
  repeat split; auto.
Qed.

Lemma encode_rows_two_way (data : list jsobject) : forall vs,
  NoDup vs -> Forall plain vs -> Forall plain (cells data) ->
  Z.of_nat (length vs + length (cells data)) < 2 ^ 32 ->
  exists more,
    encode_rows (vs, two_way_from 0 vs) data
    = ((vs ++ more, two_way_from 0 (vs ++ more)),
       map (fun row => map (Map_get (two_way_from 0 (vs ++ more))) (Object_values row)) data)
    /\ NoDup (vs ++ more) /\ Forall plain (vs ++ more)
    /\ incl (cells data) (vs ++ more).
Proof.
  induction data as [|row data IH]; intros vs Hnd Hpl Hcells Hsize;
    cbn [encode_rows cells flat_map map] in *.
  - exists []. rewrite app_nil_r. repeat split; auto. intros x [].
  - apply Forall_app in Hcells. destruct Hcells as [Hrow Hrest].
    rewrite length_app in Hsize.
    destruct (encode_row_two_way vs row Hnd Hpl Hrow ltac:(lia))
      as (new & -> & Hn & Hpn & Hlen & Hin).
    destruct (IH (vs ++ new) Hn Hpn Hrest) as (more & -> & Hm & Hpm & Hinm).
    { rewrite length_app. unfold cells in *. lia. }
    exists (new ++ more). rewrite !app_assoc. repeat split; auto.
    + f_equal. f_equal. apply map_ext_in. intros c Hc.
      symmetry. apply two_way_prefix. now apply Hin.
    + intros x Hx. apply in_app_or in Hx. destruct Hx as [Hx|Hx].
      * apply in_or_app. left. now apply Hin.
      * now apply Hinm.
Qed.

Lemma no_numeric_cells_plain (data : list jsobject) :
  no_numeric_cells data = true -> Forall plain (cells data).
Proof.
  unfold no_numeric_cells. rewrite forallb_forall, Forall_forall.
  intros H c Hc. apply H in Hc. now apply negb_true_iff in Hc.
Qed.

(** What [getTransactions] builds when no cell reads like a token. *)
Lemma getTransactions_two_way (data : list jsobject) (options : options_bag) :
  no_numeric_cells data = true -> Z.of_nat (length (cells data)) < 2 ^ 32 ->
  let e := getTransactions data options in
  valuesMap e = two_way_from 0 (values e)
  /\ NoDup (values e) /\ Forall plain (values e) /\ incl (cells data) (values e)
  /\ snd (encode_rows ([], []) data)
     = map (fun row => map (Map_get (valuesMap e)) (Object_values row)) data.
Proof.
  intros Hplain Hsize.
  destruct (encode_rows_two_way data [] (NoDup_nil _) (Forall_nil _)
              (no_numeric_cells_plain data Hplain) ltac:(simpl; lia))
    as (more & E & Hnd & Hpl & Hin).
  cbn [app two_way_from] in *.
  unfold getTransactions. unfold jsset, jsmap in *. rewrite E.
  cbn [values valuesMap snd]. auto.
Qed.

(** X14.  When no cell reads like a token, the map round-trips: a cell value is
    sent to the token of its rank among the distinct values, and that token
    back to the value. *)
Theorem tokens_round_trip (data : list jsobject) (options : options_bag) (v : jsval) :
  no_numeric_cells data = true -> Z.of_nat (length (cells data)) < 2 ^ 32 ->
  In v (cells data) ->
  let e := getTransactions data options in
  exists k, nth_error (values e) k = Some v
            /\ Map_get (valuesMap e) v = token k
            /\ Map_get (valuesMap e) (token k) = v.
Proof.
  intros Hplain Hsize Hv e.
  destruct (getTransactions_two_way data options Hplain Hsize)
    as (Em & Hnd & Hpl & Hin & _).
  fold e in Em, Hnd, Hpl, Hin. rewrite Em.
  apply (two_way_round_trip (values e) 0 v Hnd Hpl). now apply Hin.
Qed.

(** X15.  When no cell reads like a token, the default call drops the rows
    without cells and encodes every other row cell by cell. *)
Theorem rows_encode_cell_by_cell (data : list jsobject) :
  no_numeric_cells data = true -> Z.of_nat (length (cells data)) < 2 ^ 32 ->
  let e := getTransactions data no_options in
  transactions e
  = map (fun row => map (Map_get (valuesMap e)) (Object_values row))
        (filter (fun row => negb (Nat.eqb (length row) 0)) data).
Proof.
  intros Hplain Hsize e.
  destruct (getTransactions_two_way data no_options Hplain Hsize) as (_ & _ & _ & _ & Et).
  fold e in Et.
  assert (E : transactions e = filter row_length_truthy (snd (encode_rows ([], []) data))).
  { unfold e, getTransactions. destruct (encode_rows ([], []) data) as [[vs m] ts].
    reflexivity. }
  rewrite E, Et. generalize (valuesMap e) as m. clear. intros m.
  induction data as [|row data IH]; cbn [map filter]; auto.
  unfold row_length_truthy at 1. unfold Object_values at 1. rewrite !length_map.
  destruct (Nat.eqb (length row) 0); cbn [negb map]; now rewrite IH.
Qed.

Lemma filter_map_swap {A B} (f : A -> B) (p : B -> bool) (l : list A) :
  filter p (map f l) = map f (filter (fun a => p (f a)) l).
Proof.
  induction l as [|a l IH]; simpl; auto.
  destruct (p (f a)); simpl; now rewrite IH.
Qed.

Lemma summarize_perm (transactions : list (list jsval)) (m : jsmap) (found : list itemset) :
  Permutation (summarize transactions m found)
              (map (record_of transactions m)
                   (filter (fun i => Nat.ltb 1 (length (items i))) found)).
Proof.
  unfold summarize.
  rewrite (sort_perm s_support).
  now rewrite filter_map_swap.
Qed.

Section Rules.
Context {F : FPGrowthLib}.

(** X16.  The summary holds one record for each mined itemset of two items or
    more, carrying its items, its support, the labels the map gives its
    items and its share of the transactions; itemsets of one item are
    left out. *)
Theorem summary_lists_the_larger_itemsets
        (transactions : list (list jsval)) (support : option Q) (minLength : option Z)
        (summary_flag : option bool) (labels : option jsmap)
        (fpgrowth : FPGrowth) (found : list itemset) :
  summary_flag <> Some false ->
  FPGrowth_new (match support with Some s => s | None => (4 # 10)%Q end)
  = Returns fpgrowth ->
  exec fpgrowth transactions = Resolved found ->
  exists summary,
    assocationRuleLearning transactions
      {| o_support := support; o_minLength := minLength;
         o_summary := summary_flag; o_valuesMap := labels |}
    = Resolved (Summary summary)
    /\ Permutation summary
         (map (record_of transactions (match labels with Some m => m | None => [] end))
              (filter (fun i => Nat.ltb 1 (length (items i))) found)).
Proof.
  intros Hflag Hnew Hexec. unfold assocationRuleLearning.
  cbn [o_support o_minLength o_summary o_valuesMap].
  rewrite Hnew, Hexec.
  assert (Hs : match summary_flag with Some b => b | None => true end = true).
  { destruct summary_flag as [[|]|]; congruence. }
  rewrite Hs. eexists. split; [reflexivity|]. apply summarize_perm.
Qed.


(** X18.  Encoding and summarising compose: when no cell reads like a token,
    the labels of a summary built with the map of [getTransactions] are
    cell values of the dataset, and encode back to the record's items. *)
Theorem labels_decode_the_tokens
        (data : list jsobject) (support : option Q) (minLength : option Z)
        (fpgrowth : FPGrowth) (found : list itemset) :
  let e := getTransactions data no_options in
  no_numeric_cells data = true -> Z.of_nat (length (cells data)) < 2 ^ 32 ->
  FPGrowth_new (match support with Some s => s | None => (4 # 10)%Q end)
  = Returns fpgrowth ->
  exec fpgrowth (transactions e) = Resolved found ->
  Forall (fun i => incl (items i) (concat (transactions e))) found ->
  exists summary,
    assocationRuleLearning (transactions e)
      {| o_support := support; o_minLength := minLength;
         o_summary := None; o_valuesMap := Some (valuesMap e) |}
    = Resolved (Summary summary)
    /\ Forall (fun r => incl (items_labels r) (cells data)
                        /\ map (Map_get (valuesMap e)) (items_labels r) = s_items r)
              summary.
Proof.
  intros e Hplain Hsize Hnew Hexec Hitems.
  unfold assocationRuleLearning.
  cbn [o_support o_minLength o_summary o_valuesMap].
  rewrite Hnew, Hexec. eexists. split; [reflexivity|].
  pose proof (summarize_perm (transactions e) (valuesMap e) found) as Hperm.
  apply Forall_forall. intros r Hr.
  apply (Permutation_in _ Hperm) in Hr. apply in_map_iff in Hr.
  destruct Hr as (i & <- & Hi). apply filter_In in Hi. destruct Hi as [Hi _].
  rewrite Forall_forall in Hitems. specialize (Hitems i Hi).
  cbn [record_of items_labels s_items].
  destruct (getTransactions_two_way data no_options Hplain Hsize)
    as (Em & Hnd & Hpl & Hin & Et).
  fold e in Em, Hnd, Hpl, Hin, Et.
  assert (Etr : transactions e
                = filter row_length_truthy (snd (encode_rows ([], []) data))).
  { unfold e, getTransactions. destruct (encode_rows ([], []) data) as [[vs m] ts].
    reflexivity. }
  assert (Htok : forall t, In t (items i) ->
                 In (Map_get (valuesMap e) t) (cells data)
                 /\ Map_get (valuesMap e) (Map_get (valuesMap e) t) = t).
  { intros t Ht. apply Hitems in Ht. rewrite Etr, Et in Ht.
    apply in_concat in Ht. destruct Ht as (tr & Htr & Ht).
    apply filter_In in Htr. destruct Htr as [Htr _].
    apply in_map_iff in Htr. destruct Htr as (row & <- & Hrow).
    apply in_map_iff in Ht. destruct Ht as (c & <- & Hc).
    assert (Hcell : In c (cells data)).
    { unfold cells. apply in_flat_map. eauto. }
    rewrite Em.
    destruct (two_way_round_trip (values e) 0 c Hnd Hpl (Hin c Hcell))
      as (k & _ & E1 & E2).
    rewrite E1, E2. split; [exact Hcell | exact E1]. }
  split.
  - intros l Hl. apply in_map_iff in Hl. destruct Hl as (t & <- & Ht).
    now apply Htok.
  - rewrite map_map. rewrite <- (map_id (items i)) at 2.
    apply map_ext_in. intros t Ht. now apply Htok.
Qed.

End Rules.

(** ** Instances *)


Lemma default_split_is_four_fifths_witness :
  exists r w',
    train_test_split (R := LCG.random_js) JUndefined testArray
      {| test_size := None; train_size := None; random_state := Some 1;
         return_array := false; parse_int_train_size := None |} [] = Returns (r, w')
    /\ Z.of_nat (length (train_of r)) = 8
    /\ Z.of_nat (length (test_of r)) = 2
    /\ Permutation (train_of r ++ test_of r) testArray.
Proof.
  apply (default_split_is_four_fifths (C := lcg_contract) JUndefined testArray
           (Some 1) false []).
  reflexivity.
Defined.





Lemma splits_use_their_own_engine_witness :
  (exists r e,
      train_test_split (R := LCG.random_js) JUndefined testArray
        {| test_size := None; train_size := None; random_state := Some 1;
           return_array := false; parse_int_train_size := None |} [5; 6]
      = Returns (r, [5; 6] ++ [e]))
  /\ (exists split e,
         cross_validation_split (R := LCG.random_js) JUndefined testArray
           {| folds := Some 2; fold_random_state := None |} [5; 6]
         = Returns (split, [5; 6] ++ [e])).
Proof.
  exact (splits_use_their_own_engine (C := lcg_contract) JUndefined testArray
           {| test_size := None; train_size := None; random_state := Some 1;
              return_array := false; parse_int_train_size := None |}
           {| folds := Some 2; fold_random_state := None |} [5; 6]).
Defined.





Lemma missing_classifier_throws_witness :
  raises (cross_validate_score (R := LCG.random_js) JUndefined unclassified_config []).
Proof.
  apply (missing_classifier_throws (C := lcg_contract) (ML := Echo.collaborators) JUndefined
           ltac:(intros; eexists; reflexivity) ltac:(intros; eexists; reflexivity)
           ltac:(intros; eexists; reflexivity) ltac:(intros; eexists; reflexivity)
           unclassified_config []); reflexivity.
Defined.

Lemma tokens_round_trip_witness :
  let e := getTransactions purchases no_options in
  exists k, nth_error (values e) k = Some (JStr "Mexico")
            /\ Map_get (valuesMap e) (JStr "Mexico") = token k
            /\ Map_get (valuesMap e) (token k) = JStr "Mexico".
Proof.
  apply (tokens_round_trip purchases no_options (JStr "Mexico")).
  - reflexivity.
  - reflexivity.
  - simpl. tauto.
Defined.

Lemma rows_encode_cell_by_cell_witness :
  let e := getTransactions purchases no_options in
  transactions e
  = map (fun row => map (Map_get (valuesMap e)) (Object_values row))
        (filter (fun row => negb (Nat.eqb (length row) 0)) purchases).
Proof.
  apply (rows_encode_cell_by_cell purchases); reflexivity.
Defined.

Lemma summary_lists_the_larger_itemsets_witness :
  exists summary,
    assocationRuleLearning (F := fixed_miner purchase_itemsets)
      (transactions (getTransactions purchases no_options))
      {| o_support := None; o_minLength := None; o_summary := None; o_valuesMap := None |}
    = Resolved (Summary summary)
    /\ Permutation summary
         (map (record_of (transactions (getTransactions purchases no_options)) [])
              (filter (fun i => Nat.ltb 1 (length (items i))) purchase_itemsets)).
Proof.
  apply (summary_lists_the_larger_itemsets (F := fixed_miner purchase_itemsets)
           (transactions (getTransactions purchases no_options))
           None None None None (4 # 10)%Q purchase_itemsets).
  - discriminate.
  - reflexivity.
  - reflexivity.
Defined.

Lemma labels_decode_the_tokens_witness :
  let e := getTransactions purchases no_options in
  exists summary,
    assocationRuleLearning (F := fixed_miner purchase_itemsets) (transactions e)
      {| o_support := None; o_minLength := None;
         o_summary := None; o_valuesMap := Some (valuesMap e) |}
    = Resolved (Summary summary)
    /\ Forall (fun r => incl (items_labels r) (cells purchases)
                        /\ map (Map_get (valuesMap e)) (items_labels r) = s_items r)
              summary.
Proof.
  apply (labels_decode_the_tokens (F := fixed_miner purchase_itemsets) purchases
           None None (4 # 10)%Q purchase_itemsets).
  - reflexivity.
  - reflexivity.
  - reflexivity.
  - reflexivity.
  - apply Forall_forall. intros i Hi x Hx.
    change (concat (transactions (getTransactions purchases no_options)))
      with [JStr "0"; JStr "1"; JStr "2"; JStr "3"; JStr "0"; JStr "3"]%string.
    simpl in Hi.
    destruct Hi as [<-|[<-|[<-|[]]]]; simpl in Hx; simpl; tauto.
Defined.
